(** * AudioFilePlayerPlugin: the real-time MIDI dispatcher of PluginProcessor.cpp

    A shallow embedding of [AudioFilePlayerProcessor] (Source/PluginProcessor.cpp):
    the per-block callback [processBlock], the flush [sendAllNotesOff], the sink
    call [lumiMIDIEvent] and the two loaders [loadMIDIFile] and
    [loadAudioFileIntoTransport].

    Modelling conventions.
    - A time in seconds, a C++ [double] that the code only compares, is a
      rational [Q]: every finite double is one, and the comparisons the code
      makes ([>=], [<], [>]) are the order of those rationals.  The difference
      [startTime - nextStartTime] and its [std::abs] are exact on doubles.
    - The sample rate, which the code divides by, is a binary64 float, and
      [1.0 / getSampleRate()] is the IEEE division, rounded to the nearest
      double; its result (a finite double, an infinity or no number) is then
      read as a rational again.
    - A C++ [int] is a [Z]; no arithmetic of the modelled code can overflow
      (the loop counters stay below the loop bound).
    - The calls the callback makes on its collaborators (audio buffer, transport
      source, lock, MIDI buffer, LUMI device) are recorded, in program order, in
      a trace of [Effect]s; the MIDI buffer is also kept as a value.
    - Dereferencing the null pointer that [MidiFile::getTrack] returns for an
      index out of range has no defined behaviour: the model stops there
      ([None]) and keeps the effects made so far. *)

From Stdlib Require Import ZArith QArith Qabs List Bool Lia Lqa String Sorted.
From Stdlib.Strings Require Import Byte.
From Stdlib.Floats Require Import PrimFloat SpecFloat FloatOps.
Import ListNotations.

Set Implicit Arguments.
Open Scope Z_scope.

(** ** JUCE data the processor reads *)

(** [juce::MidiMessage] of a track: its bytes and its time stamp. *)
Record MidiMessage := mkMidiMessage {
  getRawData : list byte;
  getTimeStamp : Q
}.

Definition getRawDataSize (m : MidiMessage) : Z := Z.of_nat (List.length (getRawData m)).

(** [juce::MidiMessageSequence::MidiEventHolder]. *)
Record MidiEventHolder := mkMidiEventHolder {
  message : MidiMessage
}.

(** [juce::MidiMessageSequence]: the events in stored order, and the value
    [getEndTime()] returns for it. *)
Record MidiMessageSequence := mkMidiMessageSequence {
  events : list MidiEventHolder;
  getEndTime : Q
}.

Definition getNumEvents (s : MidiMessageSequence) : Z := Z.of_nat (List.length (events s)).

(** [juce::MidiFile]: its tracks. *)
Definition MidiFile := list MidiMessageSequence.

Definition getNumTracks (f : MidiFile) : Z := Z.of_nat (List.length f).

(** [MidiFile::getTrack]: the track, or a null pointer out of range. *)
Definition getTrack (f : MidiFile) (index : Z) : option MidiMessageSequence :=
  if (0 <=? index) && (index <? getNumTracks f)
  then nth_error f (Z.to_nat index)
  else None.

(** The messages a [juce::MidiBuffer] of this program can hold: what the host
    put there, and the three channel messages built by the factories of
    [juce::MidiMessage] that [sendAllNotesOff] calls. *)
Inductive BufferedMessage :=
| hostMessage (m : MidiMessage)
| allNotesOff (channel : Z)
| allSoundOff (channel : Z)
| allControllersOff (channel : Z).

Record BufferedEvent := mkBufferedEvent {
  bufferedMessage : BufferedMessage;
  samplePosition : Z
}.

Definition MidiBuffer := list BufferedEvent.

(** [MidiBuffer::addEvent (m, sampleNumber)]: the buffer is kept in sample
    order, a new event goes after the events already at its position. *)
Fixpoint addEvent (m : BufferedMessage) (sampleNumber : Z) (b : MidiBuffer) : MidiBuffer :=
  match b with
  | [] => [mkBufferedEvent m sampleNumber]
  | e :: rest =>
      if samplePosition e <=? sampleNumber
      then e :: addEvent m sampleNumber rest
      else mkBufferedEvent m sampleNumber :: e :: rest
  end.

(** ** Audio side *)

Record AudioFormatReader := mkAudioFormatReader {
  sampleRate : Q
}.

(** [AudioFormatReaderSource (reader, deleteReaderWhenThisIsDeleted)]. *)
Record AudioFormatReaderSource := mkAudioFormatReaderSource {
  reader : AudioFormatReader;
  deleteReaderWhenThisIsDeleted : bool
}.

(** What [AudioTransportSource::setSource] installs. *)
Record InstalledSource := mkInstalledSource {
  installedSource : AudioFormatReaderSource;
  readAheadBufferSize : Z;
  sourceSampleRateToCorrectFor : Q
}.

Record AudioTransportSource := mkAudioTransportSource {
  source : option InstalledSource;
  playing : bool
}.

Definition stop (t : AudioTransportSource) : AudioTransportSource :=
  mkAudioTransportSource (source t) false.

Definition setSource (s : option InstalledSource) (t : AudioTransportSource)
  : AudioTransportSource :=
  mkAudioTransportSource s (playing t).

(** ** Files

    A [juce::File] is a path.  What the file system and the JUCE decoders
    answer for a path is the [Disk]. *)
Record File := mkFile {
  getFullPathName : string
}.

Record FileAnswer := mkFileAnswer {
  (** [File::existsAsFile]. *)
  existsAsFile : bool;
  (** The [bool] that [MidiFile::readFrom] returns. *)
  readFromResult : bool;
  (** The tracks [MidiFile::readFrom] leaves in the [MidiFile], time stamps
      in ticks. *)
  readFromTracks : MidiFile;
  (** [MidiFileHelpers::convertTicksToSeconds] with the tempo events and the
      time format of the file. *)
  convertTicksToSeconds : Q -> Q;
  (** [AudioFormatManager::createReaderFor]: a reader, or null. *)
  createReaderFor : option AudioFormatReader
}.

Definition Disk := File -> FileAnswer.

(** ** The processor *)

Record AudioFilePlayerProcessor := mkProcessor {
  MIDIFile : MidiFile;
  numTracks : Z;
  currentTrack : Z;
  trackHasChanged : bool;
  isPlayingSomething : bool;
  nextStartTime : Q;
  (** whether the [lumi] pointer is set *)
  lumi : bool;
  transportSource : AudioTransportSource;
  currentAudioFileSource : option AudioFormatReaderSource;
  currentlyLoadedFile : File
}.

Definition set_MIDIFile (v : MidiFile) (p : AudioFilePlayerProcessor) :=
  mkProcessor v (numTracks p) (currentTrack p) (trackHasChanged p)
    (isPlayingSomething p) (nextStartTime p) (lumi p) (transportSource p)
    (currentAudioFileSource p) (currentlyLoadedFile p).

Definition set_numTracks (v : Z) (p : AudioFilePlayerProcessor) :=
  mkProcessor (MIDIFile p) v (currentTrack p) (trackHasChanged p)
    (isPlayingSomething p) (nextStartTime p) (lumi p) (transportSource p)
    (currentAudioFileSource p) (currentlyLoadedFile p).

Definition set_currentTrack (v : Z) (p : AudioFilePlayerProcessor) :=
  mkProcessor (MIDIFile p) (numTracks p) v (trackHasChanged p)
    (isPlayingSomething p) (nextStartTime p) (lumi p) (transportSource p)
    (currentAudioFileSource p) (currentlyLoadedFile p).

Definition set_trackHasChanged (v : bool) (p : AudioFilePlayerProcessor) :=
  mkProcessor (MIDIFile p) (numTracks p) (currentTrack p) v
    (isPlayingSomething p) (nextStartTime p) (lumi p) (transportSource p)
    (currentAudioFileSource p) (currentlyLoadedFile p).

Definition set_isPlayingSomething (v : bool) (p : AudioFilePlayerProcessor) :=
  mkProcessor (MIDIFile p) (numTracks p) (currentTrack p) (trackHasChanged p)
    v (nextStartTime p) (lumi p) (transportSource p)
    (currentAudioFileSource p) (currentlyLoadedFile p).

Definition set_nextStartTime (v : Q) (p : AudioFilePlayerProcessor) :=
  mkProcessor (MIDIFile p) (numTracks p) (currentTrack p) (trackHasChanged p)
    (isPlayingSomething p) v (lumi p) (transportSource p)
    (currentAudioFileSource p) (currentlyLoadedFile p).

Definition set_transportSource (v : AudioTransportSource) (p : AudioFilePlayerProcessor) :=
  mkProcessor (MIDIFile p) (numTracks p) (currentTrack p) (trackHasChanged p)
    (isPlayingSomething p) (nextStartTime p) (lumi p) v
    (currentAudioFileSource p) (currentlyLoadedFile p).

Definition set_currentAudioFileSource (v : option AudioFormatReaderSource)
  (p : AudioFilePlayerProcessor) :=
  mkProcessor (MIDIFile p) (numTracks p) (currentTrack p) (trackHasChanged p)
    (isPlayingSomething p) (nextStartTime p) (lumi p) (transportSource p)
    v (currentlyLoadedFile p).

Definition set_currentlyLoadedFile (v : File) (p : AudioFilePlayerProcessor) :=
  mkProcessor (MIDIFile p) (numTracks p) (currentTrack p) (trackHasChanged p)
    (isPlayingSomething p) (nextStartTime p) (lumi p) (transportSource p)
    (currentAudioFileSource p) v.

(** ** The loaders (control plane) *)

(** [MidiFile::convertTimestampTicksToSeconds]: every time stamp of every
    track goes through the tick-to-second conversion of the file. *)
Definition convertEvent (c : Q -> Q) (e : MidiEventHolder) : MidiEventHolder :=
  mkMidiEventHolder
    (mkMidiMessage (getRawData (message e)) (c (getTimeStamp (message e)))).

Definition convertTrack (c : Q -> Q) (s : MidiMessageSequence) : MidiMessageSequence :=
  mkMidiMessageSequence (map (convertEvent c) (events s)) (c (getEndTime s)).

Definition convertTimestampTicksToSeconds (c : Q -> Q) (f : MidiFile) : MidiFile :=
  map (convertTrack c) f.

(** [AudioFilePlayerProcessor::loadMIDIFile].  The function returns [void]:
    the result of [readFrom] is dropped. *)
Definition loadMIDIFile (disk : Disk) (file : File) (p : AudioFilePlayerProcessor)
  : AudioFilePlayerProcessor :=
  let p := set_MIDIFile [] p in
  let stream := disk file in
  let p := set_MIDIFile (readFromTracks stream) p in
  let p := set_MIDIFile
             (convertTimestampTicksToSeconds (convertTicksToSeconds stream) (MIDIFile p)) p in
  let p := set_numTracks (getNumTracks (MIDIFile p)) p in
  let p := set_currentTrack 0 p in
  set_trackHasChanged false p.

(** [AudioFilePlayerProcessor::loadAudioFileIntoTransport], returning [void]. *)
Definition loadAudioFileIntoTransport (disk : Disk) (audioFile : File)
  (p : AudioFilePlayerProcessor) : AudioFilePlayerProcessor :=
  let p := set_transportSource (stop (transportSource p)) p in
  let p := set_transportSource (setSource None (transportSource p)) p in
  let p := set_currentAudioFileSource None p in
  let reader := createReaderFor (disk audioFile) in
  let p := set_currentlyLoadedFile audioFile p in
  match reader with
  | Some r =>
      let src := mkAudioFormatReaderSource r true in
      let p := set_currentAudioFileSource (Some src) p in
      set_transportSource
        (setSource (Some (mkInstalledSource src 32768 (sampleRate r))) (transportSource p)) p
  | None => p
  end.

(** ** The real-time side: observable calls, world and monad *)

(** The calls [processBlock] makes on its collaborators. *)
Inductive Effect :=
| BufferClear (channel startSample numSamples : Z)  (* buffer.clear *)
| GetNextAudioBlock (numSamples : Z)                (* transportSource.getNextAudioBlock *)
| TryEnter (locked : bool)                          (* ScopedTryLock constructor *)
| Exit                                              (* ScopedTryLock destructor, lock held *)
| AddEvent (m : BufferedMessage) (sampleNumber : Z) (* midiMessages.addEvent *)
| LumiMIDIEvent (data : list byte) (size : Z)       (* call of lumiMIDIEvent *)
| SendMessage (data : list byte) (size : Z).        (* lumi->sendMessage *)

(** What the host fixes for one call of [processBlock]. *)
Record Host := mkHost {
  getTotalNumInputChannels : Z;
  getTotalNumOutputChannels : Z;
  getNumSamples : Z;          (* buffer.getNumSamples() *)
  getSampleRate : float;
  tryEnter : bool             (* whether processLock is free at the try *)
}.

Record World := mkWorld {
  self : AudioFilePlayerProcessor;
  midiMessages : MidiBuffer;
  trace : list Effect
}.

(** State over the [World]; [None] is the null dereference. *)
Definition RT (A : Type) : Type := World -> option A * World.

Definition ret {A} (a : A) : RT A := fun w => (Some a, w).

Definition bind {A B} (m : RT A) (k : A -> RT B) : RT B :=
  fun w => match m w with
           | (Some a, w') => k a w'
           | (None, w') => (None, w')
           end.

Declare Scope rt_scope.
Delimit Scope rt_scope with rt.
Notation "x <- m ;; k" := (bind m (fun x => k))
  (at level 61, m at next level, right associativity) : rt_scope.
Notation "m ;; k" := (bind m (fun _ => k))
  (at level 61, right associativity) : rt_scope.
Open Scope rt_scope.

Definition gets {A} (f : AudioFilePlayerProcessor -> A) : RT A :=
  fun w => (Some (f (self w)), w).

Definition modify (f : AudioFilePlayerProcessor -> AudioFilePlayerProcessor) : RT unit :=
  fun w => (Some tt, mkWorld (f (self w)) (midiMessages w) (trace w)).

Definition emit (e : Effect) : RT unit :=
  fun w => (Some tt, mkWorld (self w) (midiMessages w) (trace w ++ [e])).

Definition nullDereference {A} : RT A := fun w => (None, w).

Definition when (c : bool) (m : RT unit) : RT unit :=
  if c then m else ret tt.

(** A [for] loop over the elements of a list, in order. *)
Fixpoint forEach {A} (l : list A) (body : A -> RT unit) : RT unit :=
  match l with
  | [] => ret tt
  | x :: rest => body x ;; forEach rest body
  end.

(** The values [lo, lo+1, ..., hi-1] of [for (i = lo; i < hi; i++)]. *)
Definition range (lo hi : Z) : list Z :=
  map (fun k => lo + Z.of_nat k) (seq 0 (Z.to_nat (hi - lo))).

(** [midiMessages.addEvent (m, sampleNumber)] on the buffer of the world. *)
Definition midiMessages_addEvent (m : BufferedMessage) (sampleNumber : Z) : RT unit :=
  fun w => (Some tt,
            mkWorld (self w) (addEvent m sampleNumber (midiMessages w))
                    (trace w ++ [AddEvent m sampleNumber])).

(** [AudioFilePlayerProcessor::sendAllNotesOff]. *)
Definition sendAllNotesOff : RT unit :=
  forEach (range 1 17) (fun i =>
    midiMessages_addEvent (allNotesOff i) 0 ;;
    midiMessages_addEvent (allSoundOff i) 0 ;;
    midiMessages_addEvent (allControllersOff i) 0) ;;
  modify (set_isPlayingSomething false).

(** [AudioFilePlayerProcessor::lumiMIDIEvent]. *)
Definition lumiMIDIEvent (data : list byte) (size : Z) : RT unit :=
  emit (LumiMIDIEvent data size) ;;
  l <- gets lumi ;;
  when l (emit (SendMessage data size)).

(** [a < b] on doubles. *)
Definition Qlt_bool (a b : Q) : bool := negb (Qle_bool b a).

(** What a C++ [double] holds. *)
Inductive Double :=
| Finite (q : Q)
| PlusInfinity
| MinusInfinity
| NotANumber.

(** The value of a binary64 float: mantissa times a power of two. *)
Definition valueOf (f : float) : Double :=
  match Prim2SF f with
  | S754_zero _ => Finite 0
  | S754_infinity false => PlusInfinity
  | S754_infinity true => MinusInfinity
  | S754_nan => NotANumber
  | S754_finite negative m e =>
      Finite ((if negative then -1 else 1) * (Z.pos m # 1) * Qpower 2 e)
  end.

(** [auto sampleLength = 1.0 / getSampleRate();] in double arithmetic. *)
Definition sampleLength (rate : float) : Double :=
  valueOf (PrimFloat.div 1%float rate).

(** [x > sampleLength] for a finite [x]: nothing exceeds +infinity or
    compares with no number. *)
Definition exceedsSampleLength (x : Q) (rate : float) : bool :=
  match sampleLength rate with
  | Finite s => Qlt_bool s x
  | PlusInfinity => false
  | MinusInfinity => true
  | NotANumber => false
  end.

(** [auto startTime = 0;] *)
Definition startTime : Q := 0.

(** The test of line 142:
    [std::abs (startTime - nextStartTime) > sampleLength && nextStartTime > 0.0]. *)
Definition discontinuity (host : Host) (p : AudioFilePlayerProcessor) : bool :=
  exceedsSampleLength (Qabs (startTime - nextStartTime p)) (getSampleRate host)
  && Qlt_bool 0 (nextStartTime p).

(** The test of line 167 on one event. *)
Definition inWindow (endTime : Q) (event : MidiEventHolder) : bool :=
  Qle_bool startTime (getTimeStamp (message event))
  && Qlt_bool (getTimeStamp (message event)) endTime.

(** [AudioFilePlayerProcessor::processBlock]. *)
Definition processBlock (host : Host) : RT unit :=
  forEach (range (getTotalNumInputChannels host) (getTotalNumOutputChannels host))
    (fun i => emit (BufferClear i 0 (getNumSamples host))) ;;
  emit (GetNextAudioBlock (getNumSamples host)) ;;
  emit (TryEnter (tryEnter host)) ;;
  if tryEnter host then
    n <- gets numTracks ;;
    when (0 <? n) (
      index <- gets currentTrack ;;
      file <- gets MIDIFile ;;
      match getTrack file index with
      | None => nullDereference
      | Some theSequence =>
          let endTime := getEndTime theSequence in
          jumped <- gets (discontinuity host) ;;
          when jumped sendAllNotesOff ;;
          modify (set_nextStartTime endTime) ;;
          sounding <- gets isPlayingSomething ;;
          if sounding && Qle_bool (getEndTime theSequence) startTime then
            sendAllNotesOff
          else
            changed <- gets trackHasChanged ;;
            when changed (
              modify (set_trackHasChanged false) ;;
              sendAllNotesOff) ;;
            forEach (events theSequence) (fun event =>
              when (inWindow endTime event) (
                lumiMIDIEvent (getRawData (message event))
                              (getRawDataSize (message event)) ;;
                modify (set_isPlayingSomething true)))
      end) ;;
    emit Exit
  else
    sounding <- gets isPlayingSomething ;;
    when sounding sendAllNotesOff.

(** ** Vocabulary of the statements *)

(** The sixteen MIDI channels, first to last. *)
Definition channels : list Z := [1; 2; 3; 4; 5; 6; 7; 8; 9; 10; 11; 12; 13; 14; 15; 16].

Definition channelFlush (channel : Z) : list BufferedMessage :=
  [allNotesOff channel; allSoundOff channel; allControllersOff channel].

(** The Safety Flush: three messages per channel, channel 1 first. *)
Definition safetyFlush : list BufferedMessage := flat_map channelFlush channels.

(** The [addEvent] calls that put the messages [ms] at sample position 0. *)
Definition addEventCalls (ms : list BufferedMessage) : list Effect :=
  map (fun m => AddEvent m 0) ms.

Definition addEvents (ms : list BufferedMessage) (sampleNumber : Z) (b : MidiBuffer)
  : MidiBuffer :=
  fold_left (fun acc m => addEvent m sampleNumber acc) ms b.

Fixpoint takeWhile {A} (f : A -> bool) (l : list A) : list A :=
  match l with
  | [] => []
  | x :: rest => if f x then x :: takeWhile f rest else []
  end.

Fixpoint dropWhile {A} (f : A -> bool) (l : list A) : list A :=
  match l with
  | [] => []
  | x :: rest => if f x then dropWhile f rest else l
  end.

Definition notAfter (sampleNumber : Z) (e : BufferedEvent) : bool :=
  samplePosition e <=? sampleNumber.

(** The buffer [b] with the messages [ms] at position 0, behind what was
    there at positions up to 0 and in front of the later events. *)
Definition withAtZero (ms : list BufferedMessage) (b : MidiBuffer) : MidiBuffer :=
  takeWhile (notAfter 0) b ++ map (fun m => mkBufferedEvent m 0) ms
    ++ dropWhile (notAfter 0) b.

(** The world after the calls [es]. *)
Definition logged (es : list Effect) (w : World) : World :=
  mkWorld (self w) (midiMessages w) (trace w ++ es).

(** The world after a Safety Flush. *)
Definition flushed (w : World) : World :=
  mkWorld (set_isPlayingSomething false (self w))
          (addEvents safetyFlush 0 (midiMessages w))
          (trace w ++ addEventCalls safetyFlush).

(** The events of a track that are due in the window [[0, endTime)]. *)
Definition due (theSequence : MidiMessageSequence) : list MidiEventHolder :=
  filter (inWindow (getEndTime theSequence)) (events theSequence).

Definition payload (event : MidiEventHolder) : list byte := getRawData (message event).

(** The calls forwarding one event, with or without a LUMI device. *)
Definition forwardCalls (device : bool) (event : MidiEventHolder) : list Effect :=
  LumiMIDIEvent (payload event) (getRawDataSize (message event))
  :: (if device then [SendMessage (payload event) (getRawDataSize (message event))] else []).

(** The world after the scan loop over [evs] with window end [endTime]. *)
Definition scanned (endTime : Q) (evs : list MidiEventHolder) (w : World) : World :=
  mkWorld (if existsb (inWindow endTime) evs
           then set_isPlayingSomething true (self w) else self w)
          (midiMessages w)
          (trace w ++ flat_map (forwardCalls (lumi (self w))) (filter (inWindow endTime) evs)).

(** The payloads handed to [lumiMIDIEvent], in call order. *)
Definition lumiCalls (es : list Effect) : list (list byte) :=
  flat_map (fun e => match e with LumiMIDIEvent d _ => [d] | _ => [] end) es.

(** The payloads that reached the LUMI device. *)
Definition deviceSends (es : list Effect) : list (list byte) :=
  flat_map (fun e => match e with SendMessage d _ => [d] | _ => [] end) es.

(** The messages added to the MIDI buffer, in call order. *)
Definition addedMessages (es : list Effect) : list BufferedMessage :=
  flat_map (fun e => match e with AddEvent m _ => [m] | _ => [] end) es.

Definition isForward (e : Effect) : bool :=
  match e with LumiMIDIEvent _ _ | SendMessage _ _ => true | _ => false end.

Definition isAudioPull (e : Effect) : bool :=
  match e with GetNextAudioBlock _ => true | _ => false end.

Definition isTryEnter (e : Effect) : bool :=
  match e with TryEnter _ => true | _ => false end.

(** Neither an audio pull nor a lock attempt. *)
Definition afterLock (e : Effect) : bool :=
  negb (isAudioPull e) && negb (isTryEnter e).

(** The calls of [processBlock] up to and including the lock attempt. *)
Definition clears (host : Host) : list Effect :=
  map (fun i => BufferClear i 0 (getNumSamples host))
      (range (getTotalNumInputChannels host) (getTotalNumOutputChannels host)).

Definition prologue (host : Host) : list Effect :=
  clears host ++ [GetNextAudioBlock (getNumSamples host); TryEnter (tryEnter host)].

(** The flag [isPlayingSomething] as line 148 reads it: after the flush of
    line 143, if that one ran. *)
Definition soundingAtLine148 (host : Host) (p : AudioFilePlayerProcessor) : bool :=
  if discontinuity host p then false else isPlayingSomething p.

(** Whether the end-of-timeline branch (line 149) is taken. *)
Definition endOfTimeline (host : Host) (p : AudioFilePlayerProcessor)
  (theSequence : MidiMessageSequence) : bool :=
  soundingAtLine148 host p && Qle_bool (getEndTime theSequence) startTime.

(** The world with the processor changed by [f]. *)
Definition updated (f : AudioFilePlayerProcessor -> AudioFilePlayerProcessor) (w : World)
  : World :=
  mkWorld (f (self w)) (midiMessages w) (trace w).

(** Lines 137 to 178 on the track [theSequence], as a function of the world
    they start in. *)
Definition dispatched (host : Host) (theSequence : MidiMessageSequence) (w : World)
  : World :=
  let endTime := getEndTime theSequence in
  let w1 := if discontinuity host (self w) then flushed w else w in
  let w2 := updated (set_nextStartTime endTime) w1 in
  if isPlayingSomething (self w2) && Qle_bool endTime startTime
  then flushed w2
  else
    let w3 := if trackHasChanged (self w2)
              then flushed (updated (set_trackHasChanged false) w2)
              else w2 in
    scanned endTime (events theSequence) w3.

(** The [addEvent] calls between the lock attempt and the scan loop: the
    flush of line 143 and the flush of line 157, each if it runs. *)
Definition beforeScan (host : Host) (p : AudioFilePlayerProcessor) : list Effect :=
  (if discontinuity host p then addEventCalls safetyFlush else [])
  ++ (if trackHasChanged p then addEventCalls safetyFlush else []).

(** Time stamps in non-decreasing order. *)
Definition ascending (evs : list MidiEventHolder) : Prop :=
  StronglySorted
    (fun a b => (getTimeStamp (message a) <= getTimeStamp (message b))%Q) evs.

(** The Playback State of the specification, read off the processor. *)
Record PlaybackState := mkPlaybackState {
  trackCount : Z;
  currentTrackIndex : Z;
  trackChanged : bool;
  soundingFlag : bool;
  lastWindowEnd : Q
}.

Definition playbackState (p : AudioFilePlayerProcessor) : PlaybackState :=
  mkPlaybackState (numTracks p) (currentTrack p) (trackHasChanged p)
                  (isPlayingSomething p) (nextStartTime p).

(** ** Concrete data for the examples *)

Definition noteOn60 : list byte := [x90; x3c; x64].
Definition noteOn64 : list byte := [x90; x40; x64].
Definition noteOff60 : list byte := [x80; x3c; x00].

Definition eventAt (t : Q) (data : list byte) : MidiEventHolder :=
  mkMidiEventHolder (mkMidiMessage data t).

(** One track, events at 0.0 s, 0.5 s and 1.2 s, end time 1.2 s. *)
Definition exampleTrack : MidiMessageSequence :=
  mkMidiMessageSequence
    [eventAt 0.0 noteOn60; eventAt 0.5 noteOn64; eventAt 1.2 noteOff60] 1.2.

Definition songFile : File := mkFile "song.mid".
Definition brokenFile : File := mkFile "broken.mid".
Definition tuneFile : File := mkFile "tune.wav".

(** [song.mid] parses to the example track (time stamps already in seconds),
    [tune.wav] has a decoder, anything else is unreadable. *)
Definition exampleDisk : Disk := fun f =>
  if String.eqb (getFullPathName f) "song.mid"
  then mkFileAnswer true true [exampleTrack] (fun t => t) None
  else if String.eqb (getFullPathName f) "tune.wav"
  then mkFileAnswer true false [] (fun t => t) (Some (mkAudioFormatReader 44100))
  else mkFileAnswer false false [] (fun t => t) None.

(** A processor with nothing loaded and a LUMI device attached. *)
Definition idleProcessor : AudioFilePlayerProcessor :=
  mkProcessor [] 0 0 false false 0 true (mkAudioTransportSource None false)
              None (mkFile "").

Definition stereoHost (lockFree : bool) : Host :=
  mkHost 0 2 512 44100%float lockFree.

Definition loadedProcessor : AudioFilePlayerProcessor :=
  loadMIDIFile exampleDisk songFile idleProcessor.

Definition startWorld (p : AudioFilePlayerProcessor) : World := mkWorld p [] [].

(** The world after one block on the loaded example, lock free; and the
    processor it leaves, with an empty buffer and trace for the next block. *)
Definition afterFirstBlock : World :=
  snd (processBlock (stereoHost true) (startWorld loadedProcessor)).

Definition afterSecondBlock : World :=
  snd (processBlock (stereoHost true) (startWorld (self afterFirstBlock))).

(** A processor on the example track that has just been told to switch
    track while sounding. *)
Definition switchedProcessor : AudioFilePlayerProcessor :=
  set_trackHasChanged true (set_isPlayingSomething true loadedProcessor).

(** A processor with [tune.wav] installed. *)
Definition playingProcessor : AudioFilePlayerProcessor :=
  loadAudioFileIntoTransport exampleDisk tuneFile loadedProcessor.

(** ** Persisted state *)

(** [juce::XmlElement], as far as the processor uses it: a tag name and
    attributes in order. *)
Record XmlElement := mkXmlElement {
  tagName : string;
  attributes : list (string * string)
}.

(** [XmlElement::setAttribute]: the value of an attribute of that name is
    replaced, a new attribute goes to the end. *)
Fixpoint setAttributeIn (name value : string) (atts : list (string * string))
  : list (string * string) :=
  match atts with
  | [] => [(name, value)]
  | (n, v) :: rest =>
      if String.eqb n name then (n, value) :: rest
      else (n, v) :: setAttributeIn name value rest
  end.

Definition setAttribute (name value : string) (x : XmlElement) : XmlElement :=
  mkXmlElement (tagName x) (setAttributeIn name value (attributes x)).

(** The two questions [setStateInformation] asks of a parsed element,
    answered by JUCE. *)
Record XmlReader := mkXmlReader {
  hasTagName : XmlElement -> string -> bool;
  getStringAttribute : XmlElement -> string -> string
}.

(** [AudioFilePlayerProcessor::getStateInformation]: the element handed to
    [copyXmlToBinary]. *)
Definition getStateInformation (p : AudioFilePlayerProcessor) : XmlElement :=
  let xml := mkXmlElement "plugin-settings" [] in
  setAttribute "audiofile" (getFullPathName (currentlyLoadedFile p)) xml.

(** [AudioFilePlayerProcessor::setStateInformation]; [xmlState] is what
    [getXmlFromBinary] made of the data, null when it is no XML. *)
Definition setStateInformation (xml : XmlReader) (disk : Disk)
  (xmlState : option XmlElement) (p : AudioFilePlayerProcessor)
  : AudioFilePlayerProcessor :=
  match xmlState with
  | Some x =>
      if hasTagName xml x "plugin-settings" then
        let p := set_currentlyLoadedFile
                   (mkFile (getStringAttribute xml x "audiofile")) p in
        if existsAsFile (disk (currentlyLoadedFile p))
        then loadAudioFileIntoTransport disk (currentlyLoadedFile p) p
        else p
      else p
  | None => p
  end.

(** [AudioFilePlayerProcessor::~AudioFilePlayerProcessor]. *)
Definition destructor (p : AudioFilePlayerProcessor) : AudioFilePlayerProcessor :=
  set_transportSource (setSource None (transportSource p)) p.

(** A reader that compares names exactly and answers the empty string for a
    missing attribute. *)
Fixpoint lookupAttribute (name : string) (atts : list (string * string)) : string :=
  match atts with
  | [] => EmptyString
  | (n, v) :: rest => if String.eqb n name then v else lookupAttribute name rest
  end.

Definition exactReader : XmlReader :=
  mkXmlReader (fun x name => String.eqb (tagName x) name)
              (fun x name => lookupAttribute name (attributes x)).

(** ** More vocabulary *)

(** The dispatcher can reach a track: no tracks counted, or a track at
    [currentTrack]. *)
Definition trackValid (p : AudioFilePlayerProcessor) : bool :=
  (numTracks p <=? 0)
  || match getTrack (MIDIFile p) (currentTrack p) with
     | Some _ => true
     | None => false
     end.

(** The calls of lines 137 to 178 on a track, from the processor state. *)
Definition dispatchCalls (host : Host) (theSequence : MidiMessageSequence)
  (p : AudioFilePlayerProcessor) : list Effect :=
  (if discontinuity host p then addEventCalls safetyFlush else [])
  ++ (if endOfTimeline host p theSequence
      then addEventCalls safetyFlush
      else (if trackHasChanged p then addEventCalls safetyFlush else [])
           ++ flat_map (forwardCalls (lumi p)) (due theSequence)).

(** The calls of one block, from the host inputs and the processor state. *)
Definition blockCalls (host : Host) (p : AudioFilePlayerProcessor) : list Effect :=
  prologue host
  ++ (if tryEnter host then
        if 0 <? numTracks p then
          match getTrack (MIDIFile p) (currentTrack p) with
          | Some theSequence => dispatchCalls host theSequence p ++ [Exit]
          | None => []
          end
        else [Exit]
      else if isPlayingSomething p then addEventCalls safetyFlush else []).

(** One block as the host runs it: the host hands in its own MIDI buffer. *)
Definition hostBlock (block : Host * MidiBuffer) : RT unit :=
  (fun w => (Some tt, mkWorld (self w) (snd block) (trace w))) ;;
  processBlock (fst block).

(** Blocks one after the other. *)
Definition runBlocks (blocks : list (Host * MidiBuffer)) : RT unit :=
  forEach blocks hostBlock.

Definition countPulls (es : list Effect) : nat := List.length (filter isAudioPull es).

Definition countTryEnters (es : list Effect) : nat := List.length (filter isTryEnter es).

(** The events the host put in a buffer, in buffer order. *)
Definition hostEvents (b : MidiBuffer) : list BufferedEvent :=
  filter (fun e => match bufferedMessage e with hostMessage _ => true | _ => false end) b.

(** A buffer with host events at several positions. *)
Definition hostBuffer : MidiBuffer :=
  [mkBufferedEvent (hostMessage (mkMidiMessage noteOn60 0)) 0;
   mkBufferedEvent (hostMessage (mkMidiMessage noteOff60 0)) 7].

(** A track that ends at time 0. *)
Definition emptyTrack : MidiMessageSequence := mkMidiMessageSequence [] 0.

(** A processor sounding on the empty track. *)
Definition exhaustedProcessor : AudioFilePlayerProcessor :=
  mkProcessor [emptyTrack] 1 0 true true 0 true (mkAudioTransportSource None false)
              None (mkFile "").

(** A processor whose [currentTrack] is out of range. *)
Definition strayProcessor : AudioFilePlayerProcessor :=
  set_currentTrack 3 loadedProcessor.

(** The source installed in the transport, if any, is the one the processor
    owns, with the read-ahead of 32768 samples and the rate of its reader. *)
Definition sourceOwned (p : AudioFilePlayerProcessor) : Prop :=
  match source (transportSource p) with
  | None => True
  | Some i =>
      currentAudioFileSource p = Some (installedSource i)
      /\ readAheadBufferSize i = 32768
      /\ sourceSampleRateToCorrectFor i = sampleRate (reader (installedSource i))
  end.

(** The state a host saved from the processor with [tune.wav] loaded. *)
Definition savedState : XmlElement := getStateInformation playingProcessor.

(** * Properties *)

(** ** Running the monad *)

Lemma logged_nil (w : World) : logged [] w = w.
Proof. destruct w; unfold logged; simpl. now rewrite app_nil_r. Qed.

Lemma logged_logged (es fs : list Effect) (w : World) :
  logged fs (logged es w) = logged (es ++ fs) w.
Proof. unfold logged; simpl. now rewrite app_assoc. Qed.

Lemma emit_run (e : Effect) (w : World) : emit e w = (Some tt, logged [e] w).
Proof. reflexivity. Qed.

Lemma forEach_emit {A} (f : A -> Effect) (l : list A) (w : World) :
  forEach l (fun i => emit (f i)) w = (Some tt, logged (map f l) w).
Proof.
  revert w; induction l as [|x l IH]; intro w; simpl.
  - now rewrite logged_nil.
  - unfold bind. rewrite emit_run, IH, logged_logged. reflexivity.
Qed.

Lemma range_1_17 : range 1 17 = channels.
Proof. reflexivity. Qed.

(** ** [addEvent] and the order of the buffer *)

Lemma addEvent_split (m : BufferedMessage) (n : Z) (b : MidiBuffer) :
  addEvent m n b
  = takeWhile (notAfter n) b ++ mkBufferedEvent m n :: dropWhile (notAfter n) b.
Proof.
  induction b as [|e b IH]; simpl; [reflexivity|].
  unfold notAfter at 1 3. destruct (samplePosition e <=? n); simpl.
  - now rewrite IH.
  - reflexivity.
Qed.

Lemma takeWhile_app_all {A} (f : A -> bool) (l r : list A) :
  forallb f l = true -> takeWhile f (l ++ r) = l ++ takeWhile f r.
Proof.
  induction l as [|x l IH]; simpl; [reflexivity|].
  intro H. apply andb_true_iff in H as [Hx Hl]. now rewrite Hx, IH.
Qed.

Lemma dropWhile_app_all {A} (f : A -> bool) (l r : list A) :
  forallb f l = true -> dropWhile f (l ++ r) = dropWhile f r.
Proof.
  induction l as [|x l IH]; simpl; [reflexivity|].
  intro H. apply andb_true_iff in H as [Hx Hl]. now rewrite Hx, IH.
Qed.

Lemma takeWhile_all {A} (f : A -> bool) (l : list A) : forallb f (takeWhile f l) = true.
Proof.
  induction l as [|x l IH]; simpl; [reflexivity|].
  destruct (f x) eqn:E; simpl; [now rewrite E|reflexivity].
Qed.

Lemma takeWhile_dropWhile_stop {A} (f : A -> bool) (l : list A) :
  takeWhile f (dropWhile f l) = [].
Proof.
  induction l as [|x l IH]; simpl; [reflexivity|].
  destruct (f x) eqn:E; simpl; [assumption|now rewrite E].
Qed.

Lemma dropWhile_idem {A} (f : A -> bool) (l : list A) :
  dropWhile f (dropWhile f l) = dropWhile f l.
Proof.
  induction l as [|x l IH]; simpl; [reflexivity|].
  destruct (f x) eqn:E; simpl; [assumption|now rewrite E].
Qed.

(** Adding messages one after the other at one position keeps them together,
    in call order, behind the earlier events of that position. *)
Lemma addEvents_split (ms : list BufferedMessage) (n : Z) (b : MidiBuffer) :
  addEvents ms n b
  = takeWhile (notAfter n) b ++ map (fun m => mkBufferedEvent m n) ms
      ++ dropWhile (notAfter n) b.
Proof.
  unfold addEvents.
  assert (G : forall done,
             fold_left (fun acc m => addEvent m n acc) ms
               (takeWhile (notAfter n) b ++ map (fun m => mkBufferedEvent m n) done
                  ++ dropWhile (notAfter n) b)
             = takeWhile (notAfter n) b
                 ++ map (fun m => mkBufferedEvent m n) (done ++ ms)
                 ++ dropWhile (notAfter n) b).
  { induction ms as [|m ms IH]; intro done; simpl.
    - now rewrite app_nil_r.
    - rewrite addEvent_split.
      assert (Hall : forallb (notAfter n) (map (fun m0 => mkBufferedEvent m0 n) done) = true).
      { clear. induction done as [|d done IHd]; simpl; [reflexivity|].
        rewrite IHd. unfold notAfter; simpl. now rewrite Z.leb_refl. }
      rewrite !takeWhile_app_all, !dropWhile_app_all
        by (try apply takeWhile_all; exact Hall).
      rewrite takeWhile_dropWhile_stop, dropWhile_idem, app_nil_r.
      replace ((takeWhile (notAfter n) b ++ map (fun m0 => mkBufferedEvent m0 n) done)
                 ++ mkBufferedEvent m n :: dropWhile (notAfter n) b)
        with (takeWhile (notAfter n) b
                ++ map (fun m0 => mkBufferedEvent m0 n) (done ++ [m])
                ++ dropWhile (notAfter n) b)
        by (rewrite map_app, <- !app_assoc; reflexivity).
      rewrite IH, <- app_assoc. reflexivity. }
  specialize (G []). simpl in G. rewrite <- G. f_equal.
  clear. induction b as [|e b IH]; simpl; [reflexivity|].
  destruct (notAfter n e); simpl; [now rewrite <- IH|reflexivity].
Qed.

(** ** [sendAllNotesOff] and the scan loop, run on any world *)

Lemma channel_loop_run (l : list Z) (w : World) :
  forEach l (fun i =>
    midiMessages_addEvent (allNotesOff i) 0 ;;
    midiMessages_addEvent (allSoundOff i) 0 ;;
    midiMessages_addEvent (allControllersOff i) 0) w
  = (Some tt,
     mkWorld (self w)
             (addEvents (flat_map channelFlush l) 0 (midiMessages w))
             (trace w ++ addEventCalls (flat_map channelFlush l))).
Proof.
  revert w; induction l as [|i l IH]; intro w.
  - destruct w; simpl. unfold ret, addEventCalls; simpl. now rewrite app_nil_r.
  - cbn [forEach]. unfold bind at 1. unfold bind at 1. cbn [midiMessages_addEvent].
    unfold bind at 1. cbn [midiMessages_addEvent].
    unfold bind at 1. cbn [midiMessages_addEvent].
    rewrite IH. cbn [self midiMessages trace flat_map channelFlush app].
    unfold addEvents, addEventCalls. cbn [fold_left map].
    rewrite <- !app_assoc. reflexivity.
Qed.

Lemma sendAllNotesOff_run (w : World) : sendAllNotesOff w = (Some tt, flushed w).
Proof.
  unfold sendAllNotesOff. rewrite range_1_17.
  unfold bind. rewrite channel_loop_run. reflexivity.
Qed.

Lemma lumiMIDIEvent_run (data : list byte) (size : Z) (w : World) :
  lumiMIDIEvent data size w
  = (Some tt,
     logged (LumiMIDIEvent data size
             :: (if lumi (self w) then [SendMessage data size] else [])) w).
Proof.
  unfold lumiMIDIEvent, bind, gets, when; simpl.
  destruct (lumi (self w)); simpl; unfold logged, emit, ret; simpl.
  - now rewrite <- app_assoc.
  - reflexivity.
Qed.

Lemma scan_run (endTime : Q) (evs : list MidiEventHolder) (w : World) :
  forEach evs (fun event =>
    when (inWindow endTime event) (
      lumiMIDIEvent (getRawData (message event)) (getRawDataSize (message event)) ;;
      modify (set_isPlayingSomething true))) w
  = (Some tt, scanned endTime evs w).
Proof.
  revert w; induction evs as [|ev evs IH]; intro w.
  - destruct w; unfold scanned; simpl. unfold ret. now rewrite app_nil_r.
  - cbn [forEach]. unfold bind at 1. unfold when at 1.
    unfold scanned. cbn [existsb filter].
    destruct (inWindow endTime ev) eqn:E.
    + unfold bind at 1. rewrite lumiMIDIEvent_run. cbn [modify].
      rewrite IH. unfold scanned, logged. cbn [self midiMessages trace lumi
        set_isPlayingSomething orb flat_map forwardCalls payload].
      f_equal. f_equal.
      * now destruct (existsb (inWindow endTime) evs).
      * unfold payload. rewrite <- app_assoc. reflexivity.
    + cbn [ret orb]. rewrite IH. reflexivity.
Qed.

Lemma addedMessages_app (es fs : list Effect) :
  addedMessages (es ++ fs) = addedMessages es ++ addedMessages fs.
Proof. apply flat_map_app. Qed.

Lemma addedMessages_addEventCalls (ms : list BufferedMessage) :
  addedMessages (addEventCalls ms) = ms.
Proof. induction ms as [|m ms IH]; simpl; [reflexivity|now rewrite IH]. Qed.

Lemma lumiCalls_app (es fs : list Effect) :
  lumiCalls (es ++ fs) = lumiCalls es ++ lumiCalls fs.
Proof. apply flat_map_app. Qed.

Lemma deviceSends_app (es fs : list Effect) :
  deviceSends (es ++ fs) = deviceSends es ++ deviceSends fs.
Proof. apply flat_map_app. Qed.

Lemma lumiCalls_addEventCalls (ms : list BufferedMessage) :
  lumiCalls (addEventCalls ms) = [].
Proof. induction ms as [|m ms IH]; simpl; [reflexivity|exact IH]. Qed.

Lemma lumiCalls_clears (host : Host) : lumiCalls (clears host) = [].
Proof.
  unfold clears. induction (range _ _) as [|i l IH]; simpl; [reflexivity|exact IH].
Qed.

Lemma lumiCalls_prologue (host : Host) : lumiCalls (prologue host) = [].
Proof. unfold prologue. rewrite lumiCalls_app, lumiCalls_clears. reflexivity. Qed.

Lemma lumiCalls_forwardCalls (device : bool) (evs : list MidiEventHolder) :
  lumiCalls (flat_map (forwardCalls device) evs) = map payload evs.
Proof.
  induction evs as [|ev evs IH]; simpl; [reflexivity|].
  destruct device; simpl; now rewrite IH.
Qed.

Lemma deviceSends_forwardCalls (evs : list MidiEventHolder) :
  deviceSends (flat_map (forwardCalls true) evs) = map payload evs.
Proof. induction evs as [|ev evs IH]; simpl; [reflexivity|now rewrite IH]. Qed.

Lemma existsb_filter_nonempty {A} (f : A -> bool) (l : list A) :
  existsb f l = true <-> filter f l <> [].
Proof.
  induction l as [|x l IH]; simpl.
  - split; [discriminate|congruence].
  - destruct (f x); simpl; [split; [discriminate|reflexivity]|exact IH].
Qed.

(** ** [processBlock], branch by branch *)

Lemma processBlock_start (host : Host) (k : RT unit) (w : World) :
  (forEach (range (getTotalNumInputChannels host) (getTotalNumOutputChannels host))
     (fun i => emit (BufferClear i 0 (getNumSamples host))) ;;
   emit (GetNextAudioBlock (getNumSamples host)) ;;
   emit (TryEnter (tryEnter host)) ;;
   k) w
  = k (logged (prologue host) w).
Proof.
  unfold bind at 1. rewrite forEach_emit.
  unfold bind at 1. rewrite emit_run.
  unfold bind at 1. rewrite emit_run.
  rewrite !logged_logged. reflexivity.
Qed.

(** Lock not acquired. *)
Lemma processBlock_unlocked (host : Host) (w : World) :
  tryEnter host = false ->
  processBlock host w
  = (Some tt,
     if isPlayingSomething (self w)
     then flushed (logged (prologue host) w)
     else logged (prologue host) w).
Proof.
  intro Hlock. unfold processBlock. rewrite processBlock_start, Hlock.
  unfold bind, gets, when. cbv [logged]; cbn [self midiMessages trace].
  destruct (isPlayingSomething (self w)).
  - apply sendAllNotesOff_run.
  - reflexivity.
Qed.

(** Lock acquired, nothing loaded. *)
Lemma processBlock_nothing_loaded (host : Host) (w : World) :
  tryEnter host = true ->
  numTracks (self w) <= 0 ->
  processBlock host w = (Some tt, logged (prologue host ++ [Exit]) w).
Proof.
  intros Hlock Hn. unfold processBlock. rewrite processBlock_start, Hlock.
  unfold bind, gets, when. cbv [logged]; cbn [self midiMessages trace].
  replace (0 <? numTracks (self w)) with false by (symmetry; apply Z.ltb_ge; exact Hn).
  cbn [ret]. rewrite emit_run. unfold logged; cbn [self midiMessages trace].
  now rewrite <- app_assoc.
Qed.

(** Lock acquired, tracks counted, but no track at [currentTrack]. *)
Lemma processBlock_null_track (host : Host) (w : World) :
  tryEnter host = true ->
  0 < numTracks (self w) ->
  getTrack (MIDIFile (self w)) (currentTrack (self w)) = None ->
  processBlock host w = (None, logged (prologue host) w).
Proof.
  intros Hlock Hn Hnull. unfold processBlock. rewrite processBlock_start, Hlock.
  unfold bind, gets, when. cbv [logged]; cbn [self midiMessages trace].
  replace (0 <? numTracks (self w)) with true by (symmetry; apply Z.ltb_lt; exact Hn).
  cbn [self]. rewrite Hnull. reflexivity.
Qed.

(** Lock acquired and a current track. *)
Lemma processBlock_track (host : Host) (w : World) (theSequence : MidiMessageSequence) :
  tryEnter host = true ->
  0 < numTracks (self w) ->
  getTrack (MIDIFile (self w)) (currentTrack (self w)) = Some theSequence ->
  processBlock host w
  = (Some tt, logged [Exit] (dispatched host theSequence (logged (prologue host) w))).
Proof.
  intros Hlock Hn Htrack. unfold processBlock. rewrite processBlock_start, Hlock.
  unfold bind at 1. unfold gets at 1. cbv [logged]; cbn [self midiMessages trace].
  replace (0 <? numTracks (self w)) with true by (symmetry; apply Z.ltb_lt; exact Hn).
  unfold bind at 1. unfold when at 1.
  unfold bind at 1. unfold gets at 1. cbn [self].
  unfold bind at 1. unfold gets at 1. cbn [self].
  rewrite Htrack.
  unfold dispatched. cbv [logged]; cbn [self midiMessages trace].
  set (w0 := {| self := self w; midiMessages := midiMessages w;
                trace := trace w ++ prologue host |}).
  unfold bind at 1. unfold gets at 1.
  replace (self w0) with (self w) by reflexivity.
  unfold bind at 1. unfold when at 1.
  assert (Hstep : (if discontinuity host (self w) then sendAllNotesOff else ret tt) w0
                  = (Some tt, if discontinuity host (self w) then flushed w0 else w0)).
  { destruct (discontinuity host (self w)); [apply sendAllNotesOff_run|reflexivity]. }
  rewrite Hstep. clear Hstep.
  set (w1 := if discontinuity host (self w) then flushed w0 else w0).
  unfold bind at 1. cbn [modify].
  change {| self := set_nextStartTime (getEndTime theSequence) (self w1);
            midiMessages := midiMessages w1; trace := trace w1 |}
    with (updated (set_nextStartTime (getEndTime theSequence)) w1).
  set (w2 := updated (set_nextStartTime (getEndTime theSequence)) w1).
  unfold bind at 1. unfold gets at 1.
  destruct (isPlayingSomething (self w2) && Qle_bool (getEndTime theSequence) startTime).
  - rewrite sendAllNotesOff_run. rewrite emit_run. reflexivity.
  - unfold bind at 1. unfold gets at 1.
    unfold bind at 1. unfold when at 1.
    destruct (trackHasChanged (self w2)).
    + unfold bind at 1. cbn [modify]. rewrite sendAllNotesOff_run.
      rewrite scan_run. rewrite emit_run. reflexivity.
    + cbn [ret]. rewrite scan_run. rewrite emit_run. reflexivity.
Qed.

(** ** The scan path *)

Lemma due_spec (theSequence : MidiMessageSequence) (ev : MidiEventHolder) :
  In ev (due theSequence)
  <-> In ev (events theSequence)
      /\ (startTime <= getTimeStamp (message ev))%Q
      /\ (getTimeStamp (message ev) < getEndTime theSequence)%Q.
Proof.
  unfold due. rewrite filter_In. unfold inWindow, Qlt_bool.
  rewrite andb_true_iff, negb_true_iff, Qle_bool_iff.
  split; intros [Hin [Hlo Hhi]]; (split; [exact Hin|split; [exact Hlo|]]).
  - apply Qnot_le_lt. intro Hle. apply Qle_bool_iff in Hle. congruence.
  - destruct (Qle_bool (getEndTime theSequence) (getTimeStamp (message ev))) eqn:E;
      [|reflexivity].
    apply Qle_bool_iff in E. exfalso. exact (Qlt_not_le _ _ Hhi E).
Qed.

Lemma filter_ascending (f : MidiEventHolder -> bool) (evs : list MidiEventHolder) :
  ascending evs -> ascending (filter f evs).
Proof.
  unfold ascending. induction 1 as [|ev evs Hs IH Hall]; simpl.
  - constructor.
  - destruct (f ev); [|exact IH].
    constructor; [exact IH|].
    rewrite Forall_forall in *. intros x Hx. apply Hall.
    apply filter_In in Hx. tauto.
Qed.

(** The world in which the scan loop starts when the end-of-timeline branch
    is not taken. *)
Lemma dispatched_scan (host : Host) (theSequence : MidiMessageSequence) (w : World) :
  endOfTimeline host (self w) theSequence = false ->
  exists w3,
    dispatched host theSequence w = scanned (getEndTime theSequence) (events theSequence) w3
    /\ trace w3 = trace w ++ beforeScan host (self w)
    /\ lumi (self w3) = lumi (self w)
    /\ midiMessages w3
       = addEvents (addedMessages (beforeScan host (self w))) 0 (midiMessages w)
    /\ trackHasChanged (self w3) = false
    /\ isPlayingSomething (self w3)
       = (if trackHasChanged (self w) then false else soundingAtLine148 host (self w)).
Proof.
  unfold endOfTimeline, soundingAtLine148, dispatched, beforeScan. intro Hend.
  destruct (discontinuity host (self w)) eqn:D;
    destruct (trackHasChanged (self w)) eqn:T;
    cbn [updated flushed self trace midiMessages set_nextStartTime set_trackHasChanged
         set_isPlayingSomething isPlayingSomething trackHasChanged lumi andb] in *;
    rewrite ?Hend, ?T; cbn [updated flushed self trace midiMessages set_nextStartTime
         set_trackHasChanged set_isPlayingSomething isPlayingSomething trackHasChanged lumi];
    eexists; (split; [reflexivity|]);
    repeat split; try reflexivity; try exact T;
    cbn [flushed updated trace];
    rewrite <- ?app_assoc, ?app_nil_r; reflexivity.
Qed.

Lemma beforeScan_quiet (host : Host) (p : AudioFilePlayerProcessor) :
  forallb (fun e => negb (isForward e)) (beforeScan host p) = true.
Proof.
  unfold beforeScan.
  destruct (discontinuity host p); destruct (trackHasChanged p); reflexivity.
Qed.

Lemma prologue_quiet (host : Host) :
  forallb (fun e => negb (isForward e)) (prologue host) = true.
Proof.
  unfold prologue, clears. rewrite forallb_app. apply andb_true_iff. split.
  - induction (range _ _) as [|i l IH]; simpl; [reflexivity|exact IH].
  - reflexivity.
Qed.

Lemma quiet_no_calls (es : list Effect) :
  forallb (fun e => negb (isForward e)) es = true ->
  lumiCalls es = [] /\ deviceSends es = [].
Proof.
  induction es as [|e es IH]; [split; reflexivity|].
  simpl. intro H. apply andb_true_iff in H as [He Hrest].
  destruct (IH Hrest) as [IH1 IH2].
  destruct e; simpl in *; try discriminate; auto.
Qed.

(** One whole block on the scan path: what is called, in which order, and
    the state it leaves. *)
Lemma scan_path (host : Host) (w : World) (theSequence : MidiMessageSequence) :
  tryEnter host = true ->
  0 < numTracks (self w) ->
  getTrack (MIDIFile (self w)) (currentTrack (self w)) = Some theSequence ->
  endOfTimeline host (self w) theSequence = false ->
  exists w',
    processBlock host w = (Some tt, w')
    /\ trace w'
       = trace w ++ prologue host ++ beforeScan host (self w)
           ++ flat_map (forwardCalls (lumi (self w))) (due theSequence) ++ [Exit]
    /\ midiMessages w'
       = addEvents (addedMessages (beforeScan host (self w))) 0 (midiMessages w)
    /\ trackHasChanged (self w') = false
    /\ isPlayingSomething (self w')
       = (if existsb (inWindow (getEndTime theSequence)) (events theSequence) then true
          else if trackHasChanged (self w) then false
          else soundingAtLine148 host (self w)).
Proof.
  intros Hlock Hn Htrack Hend.
  rewrite (processBlock_track host w Hlock Hn Htrack).
  destruct (dispatched_scan host theSequence (logged (prologue host) w) Hend)
    as (w3 & Hd & Htr & Hlumi & Hbuf & Hchg & Hplay).
  cbn [logged self trace midiMessages] in *.
  exists (logged [Exit] (dispatched host theSequence (logged (prologue host) w))).
  rewrite Hd. unfold scanned, logged at 1 2 3 4 5.
  cbn [self trace midiMessages]. rewrite Hlumi, Htr.
  split; [reflexivity|]. split.
  { unfold due. now rewrite <- !app_assoc. }
  split; [exact Hbuf|]. split.
  { destruct (existsb _ _); exact Hchg. }
  destruct (existsb _ _); [reflexivity|exact Hplay].
Qed.

(** C1.  In a block where the lock is acquired, a track is current and the
    end-of-timeline branch is not taken, the payloads handed to the sink are
    exactly those of the events of the current track whose time stamp lies
    in [[startTime, endTime)] (with [startTime = 0] and [endTime] the end
    time of the track), in the stored order of the track (so ascending when
    the track is); with a device attached the device receives the same; and
    the flag [isPlayingSomething] is set as soon as one event is forwarded. *)
Theorem C1_scan_forwards_exactly_the_window
  (host : Host) (w : World) (theSequence : MidiMessageSequence) :
  tryEnter host = true ->
  0 < numTracks (self w) ->
  getTrack (MIDIFile (self w)) (currentTrack (self w)) = Some theSequence ->
  endOfTimeline host (self w) theSequence = false ->
  exists w',
    processBlock host w = (Some tt, w')
    /\ lumiCalls (trace w') = lumiCalls (trace w) ++ map payload (due theSequence)
    /\ (lumi (self w) = true ->
        deviceSends (trace w') = deviceSends (trace w) ++ map payload (due theSequence))
    /\ due theSequence
       = filter (fun ev => Qle_bool 0 (getTimeStamp (message ev))
                           && negb (Qle_bool (getEndTime theSequence)
                                             (getTimeStamp (message ev))))
                (events theSequence)
    /\ (forall ev, In ev (due theSequence)
                   <-> In ev (events theSequence)
                       /\ (0 <= getTimeStamp (message ev))%Q
                       /\ (getTimeStamp (message ev) < getEndTime theSequence)%Q)
    /\ (ascending (events theSequence) -> ascending (due theSequence))
    /\ (due theSequence <> [] -> isPlayingSomething (self w') = true).
Proof.
  intros Hlock Hn Htrack Hend.
  destruct (scan_path host w Hlock Hn Htrack Hend)
    as (w' & Hrun & Htr & _ & _ & Hplay).
  exists w'. split; [exact Hrun|].
  destruct (quiet_no_calls _ (beforeScan_quiet host (self w))) as [Hq1 Hq2].
  destruct (quiet_no_calls _ (prologue_quiet host)) as [_ Hq3].
  split.
  { rewrite Htr. rewrite !lumiCalls_app, lumiCalls_prologue, Hq1,
      lumiCalls_forwardCalls. simpl. now rewrite app_nil_r. }
  split.
  { intro Hdev. rewrite Htr, Hdev.
    rewrite !deviceSends_app, Hq3, Hq2, deviceSends_forwardCalls.
    simpl. now rewrite app_nil_r. }
  split; [reflexivity|].
  split; [exact (due_spec theSequence)|].
  split; [apply filter_ascending|].
  intro Hdue. rewrite Hplay.
  apply existsb_filter_nonempty in Hdue. now rewrite Hdue.
Qed.

Lemma C1_witness :
  exists w',
    processBlock (stereoHost true) (startWorld loadedProcessor) = (Some tt, w')
    /\ lumiCalls (trace w') = [noteOn60; noteOn64]
    /\ isPlayingSomething (self w') = true.
Proof.
  destruct (@C1_scan_forwards_exactly_the_window
              (stereoHost true) (startWorld loadedProcessor) exampleTrack
              eq_refl eq_refl eq_refl eq_refl)
    as (w' & Hrun & Hcalls & _ & _ & _ & _ & Hflag).
  exists w'. split; [exact Hrun|]. split; [exact Hcalls|].
  apply Hflag. discriminate.
Defined.

(** ** The Safety Flush *)

Lemma addedMessages_prologue (host : Host) : addedMessages (prologue host) = [].
Proof.
  unfold prologue, clears. rewrite addedMessages_app.
  induction (range _ _) as [|i l IH]; simpl; [reflexivity|exact IH].
Qed.

(** C2.  [sendAllNotesOff] always returns; it adds to the MIDI buffer, for
    the channels 1 to 16 in that order, the messages all-notes-off,
    all-sound-off, all-controllers-off in that order, 48 in all, which sit in
    that order in the buffer at sample position 0; nothing is sent to the
    sink; afterwards [isPlayingSomething] is false and nothing else of the
    processor has changed. *)
Theorem C2_safety_flush_sequence (w : World) :
  exists w',
    sendAllNotesOff w = (Some tt, w')
    /\ trace w' = trace w ++ map (fun m => AddEvent m 0) safetyFlush
    /\ safetyFlush
       = flat_map (fun ch => [allNotesOff ch; allSoundOff ch; allControllersOff ch])
                  [1; 2; 3; 4; 5; 6; 7; 8; 9; 10; 11; 12; 13; 14; 15; 16]
    /\ List.length safetyFlush = 48%nat
    /\ midiMessages w'
       = takeWhile (notAfter 0) (midiMessages w)
           ++ map (fun m => mkBufferedEvent m 0) safetyFlush
           ++ dropWhile (notAfter 0) (midiMessages w)
    /\ isPlayingSomething (self w') = false
    /\ self w' = set_isPlayingSomething false (self w).
Proof.
  exists (flushed w). split; [apply sendAllNotesOff_run|].
  split; [reflexivity|]. split; [reflexivity|]. split; [reflexivity|].
  split; [|split; reflexivity].
  unfold flushed; cbn [midiMessages]. apply addEvents_split.
Qed.

(** C3.  In a block where the lock is not acquired: if [isPlayingSomething]
    was true, the block adds exactly the Safety Flush to the MIDI buffer of
    the block and leaves [isPlayingSomething] false; if it was false, the
    block adds no message, calls the sink for nothing and leaves processor
    and buffer as they were (the audio pull of the block is still made). *)
Theorem C3_flush_when_lock_not_acquired (host : Host) (w : World) :
  tryEnter host = false ->
  exists w',
    processBlock host w = (Some tt, w')
    /\ lumiCalls (trace w') = lumiCalls (trace w)
    /\ (isPlayingSomething (self w) = true ->
        addedMessages (trace w') = addedMessages (trace w) ++ safetyFlush
        /\ midiMessages w' = withAtZero safetyFlush (midiMessages w)
        /\ isPlayingSomething (self w') = false
        /\ self w' = set_isPlayingSomething false (self w))
    /\ (isPlayingSomething (self w) = false ->
        addedMessages (trace w') = addedMessages (trace w)
        /\ midiMessages w' = midiMessages w
        /\ self w' = self w
        /\ trace w' = trace w ++ prologue host).
Proof.
  intro Hlock. rewrite (processBlock_unlocked host w Hlock).
  eexists. split; [reflexivity|].
  destruct (isPlayingSomething (self w)) eqn:P.
  - cbn [flushed logged trace self midiMessages]. split.
    { rewrite !lumiCalls_app, lumiCalls_prologue, lumiCalls_addEventCalls.
      now rewrite !app_nil_r. }
    split; [|intro; discriminate]. intros _.
    rewrite !addedMessages_app, addedMessages_prologue, addedMessages_addEventCalls.
    rewrite app_nil_r. split; [reflexivity|].
    split; [apply addEvents_split|]. split; reflexivity.
  - cbn [logged trace self midiMessages]. split.
    { rewrite lumiCalls_app, lumiCalls_prologue. now rewrite app_nil_r. }
    split; [intro; discriminate|]. intros _.
    rewrite addedMessages_app, addedMessages_prologue, app_nil_r.
    repeat split; reflexivity.
Qed.

Lemma C3_witness :
  exists w',
    processBlock (stereoHost false) (startWorld (self afterFirstBlock)) = (Some tt, w')
    /\ addedMessages (trace w') = safetyFlush
    /\ isPlayingSomething (self w') = false.
Proof.
  destruct (@C3_flush_when_lock_not_acquired
              (stereoHost false) (startWorld (self afterFirstBlock)) eq_refl)
    as (w' & Hrun & _ & Hsounding & _).
  destruct (Hsounding eq_refl) as (Hadded & _ & Hflag & _).
  exists w'. split; [exact Hrun|]. split; [exact Hadded|exact Hflag].
Defined.

(** C4.  In a block that reaches the scan path with [trackHasChanged] set,
    the flag is cleared and the calls of the block are: calls that forward
    nothing, then the 48 [addEvent] calls of one Safety Flush, then the
    forwarding of the due events of the current track, then the release of
    the lock.  So every event of the track, also one at time 0, is forwarded
    after the whole flush. *)
Theorem C4_track_switch_flushes_before_forwarding
  (host : Host) (w : World) (theSequence : MidiMessageSequence) :
  tryEnter host = true ->
  0 < numTracks (self w) ->
  getTrack (MIDIFile (self w)) (currentTrack (self w)) = Some theSequence ->
  endOfTimeline host (self w) theSequence = false ->
  trackHasChanged (self w) = true ->
  exists w' before,
    processBlock host w = (Some tt, w')
    /\ trackHasChanged (self w') = false
    /\ trace w'
       = trace w ++ before
           ++ map (fun m => AddEvent m 0) safetyFlush
           ++ flat_map (forwardCalls (lumi (self w))) (due theSequence)
           ++ [Exit]
    /\ forallb (fun e => negb (isForward e)) before = true
    /\ lumiCalls (flat_map (forwardCalls (lumi (self w))) (due theSequence))
       = map payload (due theSequence)
    /\ List.length safetyFlush = (16 * 3)%nat.
Proof.
  intros Hlock Hn Htrack Hend Hchanged.
  destruct (scan_path host w Hlock Hn Htrack Hend) as (w' & Hrun & Htr & _ & Hchg & _).
  exists w'.
  exists (prologue host
          ++ (if discontinuity host (self w) then addEventCalls safetyFlush else [])).
  split; [exact Hrun|]. split; [exact Hchg|]. split.
  { rewrite Htr. unfold beforeScan. rewrite Hchanged.
    unfold addEventCalls. now rewrite <- !app_assoc. }
  split.
  { rewrite forallb_app, prologue_quiet.
    destruct (discontinuity host (self w)); reflexivity. }
  split; [apply lumiCalls_forwardCalls|reflexivity].
Qed.

Lemma C4_witness :
  exists w',
    processBlock (stereoHost true) (startWorld switchedProcessor) = (Some tt, w')
    /\ trackHasChanged (self w') = false
    /\ trace w'
       = prologue (stereoHost true)
           ++ map (fun m => AddEvent m 0) safetyFlush
           ++ flat_map (forwardCalls true) [eventAt 0.0 noteOn60; eventAt 0.5 noteOn64]
           ++ [Exit].
Proof.
  destruct (@C4_track_switch_flushes_before_forwarding
              (stereoHost true) (startWorld switchedProcessor) exampleTrack
              eq_refl eq_refl eq_refl eq_refl eq_refl)
    as (w' & before & Hrun & Hchg & Htr & _).
  exists w'. split; [exact Hrun|]. split; [exact Hchg|].
  assert (Hw : w' = snd (processBlock (stereoHost true) (startWorld switchedProcessor)))
    by (rewrite Hrun; reflexivity).
  rewrite Hw. vm_compute. reflexivity.
Defined.

(** ** Reading a world after a step *)

Lemma self_logged es w : self (logged es w) = self w.
Proof. reflexivity. Qed.
Lemma trace_logged es w : trace (logged es w) = trace w ++ es.
Proof. reflexivity. Qed.
Lemma midiMessages_logged es w : midiMessages (logged es w) = midiMessages w.
Proof. reflexivity. Qed.
Lemma self_updated f w : self (updated f w) = f (self w).
Proof. reflexivity. Qed.
Lemma trace_updated f w : trace (updated f w) = trace w.
Proof. reflexivity. Qed.
Lemma midiMessages_updated f w : midiMessages (updated f w) = midiMessages w.
Proof. reflexivity. Qed.
Lemma self_flushed w : self (flushed w) = set_isPlayingSomething false (self w).
Proof. reflexivity. Qed.
Lemma trace_flushed w : trace (flushed w) = trace w ++ addEventCalls safetyFlush.
Proof. reflexivity. Qed.
Lemma midiMessages_flushed w :
  midiMessages (flushed w) = addEvents safetyFlush 0 (midiMessages w).
Proof. reflexivity. Qed.
Lemma isPlayingSomething_set_nextStartTime v p :
  isPlayingSomething (set_nextStartTime v p) = isPlayingSomething p.
Proof. reflexivity. Qed.
Lemma isPlayingSomething_set_trackHasChanged v p :
  isPlayingSomething (set_trackHasChanged v p) = isPlayingSomething p.
Proof. reflexivity. Qed.
Lemma isPlayingSomething_set v p : isPlayingSomething (set_isPlayingSomething v p) = v.
Proof. reflexivity. Qed.
Lemma trackHasChanged_set_nextStartTime v p :
  trackHasChanged (set_nextStartTime v p) = trackHasChanged p.
Proof. reflexivity. Qed.

Create Rewrite HintDb world.
#[local] Hint Rewrite self_logged trace_logged midiMessages_logged
  self_updated trace_updated midiMessages_updated
  self_flushed trace_flushed midiMessages_flushed
  isPlayingSomething_set_nextStartTime isPlayingSomething_set_trackHasChanged
  isPlayingSomething_set trackHasChanged_set_nextStartTime : world.

(** ** The end-of-timeline branch, and every block at once *)

Lemma end_path (host : Host) (w : World) (theSequence : MidiMessageSequence) :
  tryEnter host = true ->
  0 < numTracks (self w) ->
  getTrack (MIDIFile (self w)) (currentTrack (self w)) = Some theSequence ->
  endOfTimeline host (self w) theSequence = true ->
  exists w',
    processBlock host w = (Some tt, w')
    /\ trace w' = trace w ++ prologue host ++ addEventCalls safetyFlush ++ [Exit]
    /\ isPlayingSomething (self w') = false.
Proof.
  intros Hlock Hn Htrack Hend.
  rewrite (processBlock_track host w Hlock Hn Htrack).
  eexists. split; [reflexivity|].
  unfold endOfTimeline, soundingAtLine148 in Hend. unfold dispatched.
  autorewrite with world.
  destruct (discontinuity host (self w)); [discriminate|].
  autorewrite with world. rewrite Hend. autorewrite with world.
  split; [now rewrite <- !app_assoc|reflexivity].
Qed.

Lemma afterLock_addEventCalls (ms : list BufferedMessage) :
  forallb afterLock (addEventCalls ms) = true.
Proof. induction ms as [|m ms IH]; simpl; [reflexivity|exact IH]. Qed.

Lemma afterLock_forwardCalls (device : bool) (evs : list MidiEventHolder) :
  forallb afterLock (flat_map (forwardCalls device) evs) = true.
Proof.
  induction evs as [|ev evs IH]; simpl; [reflexivity|].
  destruct device; simpl; exact IH.
Qed.

Lemma afterLock_beforeScan (host : Host) (p : AudioFilePlayerProcessor) :
  forallb afterLock (beforeScan host p) = true.
Proof.
  unfold beforeScan. rewrite forallb_app, andb_true_iff. split.
  - destruct (discontinuity host p); [apply afterLock_addEventCalls|reflexivity].
  - destruct (trackHasChanged p); [apply afterLock_addEventCalls|reflexivity].
Qed.

Lemma afterLock_clears (host : Host) : forallb afterLock (clears host) = true.
Proof.
  unfold clears. induction (range _ _) as [|i l IH]; simpl; [reflexivity|exact IH].
Qed.

(** The calls of any block: the prologue, then calls that are neither an
    audio pull nor a lock attempt; with the flag and the sink calls. *)
Lemma every_block (host : Host) (w : World) :
  exists rest,
    trace (snd (processBlock host w)) = trace w ++ prologue host ++ rest
    /\ forallb afterLock rest = true
    /\ (isPlayingSomething (self w) = false ->
        isPlayingSomething (self (snd (processBlock host w))) = true ->
        lumiCalls rest <> []).
Proof.
  destruct (tryEnter host) eqn:Hlock.
  - destruct (Z.ltb_spec 0 (numTracks (self w))) as [Hn|Hn].
    + destruct (getTrack (MIDIFile (self w)) (currentTrack (self w)))
        as [theSequence|] eqn:Htrack.
      * destruct (endOfTimeline host (self w) theSequence) eqn:Hend.
        -- destruct (end_path host w Hlock Hn Htrack Hend) as (w' & Hrun & Htr & Hflag).
           rewrite Hrun. cbn [snd]. exists (addEventCalls safetyFlush ++ [Exit]).
           split; [exact Htr|].
           split; [rewrite forallb_app, afterLock_addEventCalls; reflexivity|].
           intros _ Htrue. congruence.
        -- destruct (scan_path host w Hlock Hn Htrack Hend)
             as (w' & Hrun & Htr & _ & _ & Hflag).
           rewrite Hrun. cbn [snd].
           exists (beforeScan host (self w)
                   ++ flat_map (forwardCalls (lumi (self w))) (due theSequence) ++ [Exit]).
           split; [exact Htr|]. split.
           { rewrite !forallb_app, afterLock_beforeScan, afterLock_forwardCalls.
             reflexivity. }
           intros Hfalse Htrue. rewrite Hflag in Htrue.
           unfold soundingAtLine148 in Htrue. rewrite Hfalse in Htrue.
           destruct (existsb (inWindow (getEndTime theSequence)) (events theSequence))
             eqn:Hex.
           ++ apply existsb_filter_nonempty in Hex.
              rewrite !lumiCalls_app, lumiCalls_forwardCalls.
              destruct (quiet_no_calls _ (beforeScan_quiet host (self w))) as [Hq _].
              rewrite Hq. cbn [app]. fold (due theSequence) in Hex.
              destruct (due theSequence); [congruence|discriminate].
           ++ destruct (trackHasChanged (self w)); [discriminate|].
              destruct (discontinuity host (self w)); discriminate.
      * rewrite (processBlock_null_track host w Hlock Hn Htrack). cbn [snd logged trace self].
        exists []. split; [now rewrite app_nil_r|]. split; [reflexivity|].
        intros Hfalse Htrue. congruence.
    + rewrite (processBlock_nothing_loaded host w Hlock Hn). cbn [snd logged trace self].
      exists [Exit]. split; [reflexivity|]. split; [reflexivity|].
      intros Hfalse Htrue. congruence.
  - rewrite (processBlock_unlocked host w Hlock). cbn [snd].
    destruct (isPlayingSomething (self w)) eqn:P.
    + exists (addEventCalls safetyFlush). cbn [flushed logged trace self].
      split; [now rewrite <- app_assoc|]. split; [apply afterLock_addEventCalls|].
      intros; discriminate.
    + exists []. cbn [logged trace self]. split; [now rewrite app_nil_r|].
      split; [reflexivity|].
      intros _ Htrue. congruence.
Qed.

(** C9.  Every call of [processBlock], whatever the lock, the loaded file
    and the MIDI state, makes exactly one audio pull, of the sample count of
    the block, and makes it before its one lock attempt: the calls of the
    block are the channel clears, the pull, the lock attempt, and then calls
    none of which is a pull or a lock attempt. *)
Theorem C9_audio_pulled_once_before_the_lock (host : Host) (w : World) :
  exists rest,
    trace (snd (processBlock host w))
    = trace w ++ clears host
        ++ GetNextAudioBlock (getNumSamples host) :: TryEnter (tryEnter host) :: rest
    /\ forallb (fun e => negb (isAudioPull e)) (clears host ++ rest) = true
    /\ forallb (fun e => negb (isTryEnter e)) (clears host ++ rest) = true.
Proof.
  destruct (every_block host w) as (rest & Htr & Hrest & _).
  exists rest. split.
  { rewrite Htr. unfold prologue. now rewrite <- !app_assoc. }
  assert (Hall : forallb afterLock (clears host ++ rest) = true)
    by (rewrite forallb_app, afterLock_clears, Hrest; reflexivity).
  rewrite forallb_forall in Hall.
  split; apply forallb_forall; intros e He; specialize (Hall e He);
    unfold afterLock in Hall; apply andb_true_iff in Hall; tauto.
Qed.

(** C10.  A block that starts with [isPlayingSomething] false and ends with
    it true has called the sink at least once; and no other operation turns
    the flag on: [sendAllNotesOff] leaves it false, [lumiMIDIEvent] and the
    two loaders leave it as it was. *)
Theorem C10_flag_rises_only_on_forwarding :
  (forall (host : Host) (w : World),
      isPlayingSomething (self w) = false ->
      isPlayingSomething (self (snd (processBlock host w))) = true ->
      exists calls,
        trace (snd (processBlock host w)) = trace w ++ calls
        /\ lumiCalls calls <> [])
  /\ (forall w, isPlayingSomething (self (snd (sendAllNotesOff w))) = false)
  /\ (forall data size w, self (snd (lumiMIDIEvent data size w)) = self w)
  /\ (forall disk file p,
         isPlayingSomething (loadMIDIFile disk file p) = isPlayingSomething p)
  /\ (forall disk file p,
         isPlayingSomething (loadAudioFileIntoTransport disk file p)
         = isPlayingSomething p).
Proof.
  split.
  { intros host w Hfalse Htrue.
    destruct (every_block host w) as (rest & Htr & _ & Hcalls).
    exists (prologue host ++ rest). split; [exact Htr|].
    rewrite lumiCalls_app, lumiCalls_prologue. exact (Hcalls Hfalse Htrue). }
  split; [intro w; now rewrite sendAllNotesOff_run|].
  split; [intros data size w; now rewrite lumiMIDIEvent_run|].
  split; [reflexivity|].
  intros disk file p. unfold loadAudioFileIntoTransport.
  destruct (createReaderFor (disk file)); reflexivity.
Qed.

Lemma C10_witness :
  exists calls,
    trace afterFirstBlock = calls /\ lumiCalls calls <> [].
Proof.
  destruct (proj1 C10_flag_rises_only_on_forwarding
              (stereoHost true) (startWorld loadedProcessor) eq_refl eq_refl)
    as (calls & Htr & Hcalls).
  exists calls. split; [exact Htr|exact Hcalls].
Defined.

(** ** The loaders *)

Lemma getNumTracks_convert (c : Q -> Q) (f : MidiFile) :
  getNumTracks (convertTimestampTicksToSeconds c f) = getNumTracks f.
Proof. unfold getNumTracks, convertTimestampTicksToSeconds. now rewrite length_map. Qed.

(** C5, as the code has it.  After a successful load of a MIDI file the
    timeline is the file's tracks with their time stamps in seconds,
    [numTracks] is the number of tracks parsed, [currentTrack] is 0,
    [trackHasChanged] is false, and [isPlayingSomething] and [nextStartTime]
    are what they were before the load. *)
Theorem C5_load_resets_the_cursor_only
  (disk : Disk) (file : File) (p : AudioFilePlayerProcessor) :
  readFromResult (disk file) = true ->
  let p' := loadMIDIFile disk file p in
  MIDIFile p'
  = convertTimestampTicksToSeconds (convertTicksToSeconds (disk file))
                                   (readFromTracks (disk file))
  /\ numTracks p' = getNumTracks (readFromTracks (disk file))
  /\ numTracks p' = getNumTracks (MIDIFile p')
  /\ currentTrack p' = 0
  /\ trackHasChanged p' = false
  /\ isPlayingSomething p' = isPlayingSomething p
  /\ nextStartTime p' = nextStartTime p
  /\ playbackState p'
     = mkPlaybackState (getNumTracks (readFromTracks (disk file))) 0 false
                       (soundingFlag (playbackState p)) (lastWindowEnd (playbackState p)).
Proof.
  intros _ p'. subst p'. unfold loadMIDIFile, playbackState.
  cbn [MIDIFile numTracks currentTrack trackHasChanged isPlayingSomething nextStartTime
       set_MIDIFile set_numTracks set_currentTrack set_trackHasChanged
       soundingFlag lastWindowEnd].
  rewrite getNumTracks_convert. repeat split; reflexivity.
Qed.

Lemma C5_witness :
  playbackState (loadMIDIFile exampleDisk songFile (self afterFirstBlock))
  = mkPlaybackState 1 0 false true 1.2.
Proof.
  exact (proj2 (proj2 (proj2 (proj2 (proj2 (proj2 (proj2
           (@C5_load_resets_the_cursor_only exampleDisk songFile (self afterFirstBlock)
              eq_refl)))))))).
Defined.

(** C5 as stated fails: a successful load after a scanned block leaves
    [nextStartTime] at the end time that block recorded, not at 0. *)
Lemma C5_load_keeps_lastWindowEnd :
  readFromResult (exampleDisk songFile) = true
  /\ lastWindowEnd (playbackState (loadMIDIFile exampleDisk songFile (self afterFirstBlock)))
     = 1.2%Q
  /\ ~ (lastWindowEnd (playbackState (loadMIDIFile exampleDisk songFile (self afterFirstBlock)))
        == 0)%Q.
Proof.
  split; [reflexivity|]. split; [reflexivity|].
  intro H. vm_compute in H. discriminate H.
Qed.

(** C6, as the code has it.  Both loaders return nothing, so a failure is
    not reported.  A failing MIDI load has already cleared the timeline: the
    timeline becomes the tracks the failed read left, [numTracks] their
    number, [currentTrack] 0 and [trackHasChanged] false; the rest of the
    processor is kept.  A failing audio load has already stopped the
    transport and removed the installed source, and records the requested
    file as the loaded one; the timeline and the Playback State are kept. *)
Theorem C6_failing_loads
  (disk : Disk) (midiFile audioFile : File) (p : AudioFilePlayerProcessor) :
  readFromResult (disk midiFile) = false ->
  createReaderFor (disk audioFile) = None ->
  (let p' := loadMIDIFile disk midiFile p in
   MIDIFile p'
   = convertTimestampTicksToSeconds (convertTicksToSeconds (disk midiFile))
                                    (readFromTracks (disk midiFile))
   /\ playbackState p'
      = mkPlaybackState (getNumTracks (readFromTracks (disk midiFile))) 0 false
                        (isPlayingSomething p) (nextStartTime p)
   /\ lumi p' = lumi p
   /\ transportSource p' = transportSource p
   /\ currentAudioFileSource p' = currentAudioFileSource p
   /\ currentlyLoadedFile p' = currentlyLoadedFile p)
  /\ (let p' := loadAudioFileIntoTransport disk audioFile p in
      transportSource p' = mkAudioTransportSource None false
      /\ currentAudioFileSource p' = None
      /\ currentlyLoadedFile p' = audioFile
      /\ MIDIFile p' = MIDIFile p
      /\ playbackState p' = playbackState p
      /\ lumi p' = lumi p).
Proof.
  intros _ Hreader. split.
  - unfold loadMIDIFile, playbackState.
    cbn [MIDIFile numTracks currentTrack trackHasChanged isPlayingSomething nextStartTime
         lumi transportSource currentAudioFileSource currentlyLoadedFile
         set_MIDIFile set_numTracks set_currentTrack set_trackHasChanged].
    rewrite getNumTracks_convert. repeat split; reflexivity.
  - unfold loadAudioFileIntoTransport. rewrite Hreader. repeat split; reflexivity.
Qed.

Lemma C6_witness :
  MIDIFile (loadMIDIFile exampleDisk brokenFile loadedProcessor) = []
  /\ transportSource (loadAudioFileIntoTransport exampleDisk brokenFile playingProcessor)
     = mkAudioTransportSource None false.
Proof.
  destruct (@C6_failing_loads exampleDisk brokenFile brokenFile loadedProcessor
              eq_refl eq_refl) as [[Hmidi _] _].
  destruct (@C6_failing_loads exampleDisk brokenFile brokenFile playingProcessor
              eq_refl eq_refl) as [_ [Haudio _]].
  split; [exact Hmidi|exact Haudio].
Defined.

(** C6 as stated fails: after a failing MIDI load the timeline is gone and
    the track count is 0, and after a failing audio load the installed source
    is gone and the loaded file is the one that failed. *)
Lemma C6_failed_load_discards_previous :
  (readFromResult (exampleDisk brokenFile) = false
   /\ MIDIFile (loadMIDIFile exampleDisk brokenFile loadedProcessor)
      <> MIDIFile loadedProcessor
   /\ playbackState (loadMIDIFile exampleDisk brokenFile loadedProcessor)
      <> playbackState loadedProcessor
   /\ trackCount (playbackState loadedProcessor) = 1
   /\ trackCount (playbackState (loadMIDIFile exampleDisk brokenFile loadedProcessor)) = 0)
  /\ (createReaderFor (exampleDisk brokenFile) = None
      /\ source (transportSource playingProcessor) <> None
      /\ source (transportSource
                   (loadAudioFileIntoTransport exampleDisk brokenFile playingProcessor))
         = None
      /\ currentlyLoadedFile playingProcessor = tuneFile
      /\ currentlyLoadedFile
           (loadAudioFileIntoTransport exampleDisk brokenFile playingProcessor)
         = brokenFile).
Proof.
  repeat split; try (intro H; vm_compute in H; discriminate H).
Qed.

(** ** The discontinuity test *)

Lemma Qlt_bool_iff (a b : Q) : Qlt_bool a b = true <-> (a < b)%Q.
Proof.
  unfold Qlt_bool. rewrite negb_true_iff. split.
  - intro H. apply Qnot_le_lt. intro Hle. apply Qle_bool_iff in Hle. congruence.
  - intro H. destruct (Qle_bool b a) eqn:E; [|reflexivity].
    apply Qle_bool_iff in E. exfalso. exact (Qlt_not_le _ _ H E).
Qed.

(** Every block that reaches line 145 records the end time of its track. *)
Lemma dispatched_records_endTime
  (host : Host) (theSequence : MidiMessageSequence) (w : World) :
  nextStartTime (self (dispatched host theSequence w)) = getEndTime theSequence.
Proof.
  unfold dispatched.
  set (w1 := if discontinuity host (self w) then flushed w else w).
  set (w2 := updated (set_nextStartTime (getEndTime theSequence)) w1).
  assert (H2 : nextStartTime (self w2) = getEndTime theSequence) by reflexivity.
  destruct (isPlayingSomething (self w2) && Qle_bool (getEndTime theSequence) startTime).
  - exact H2.
  - destruct (trackHasChanged (self w2)); unfold scanned; cbn [self];
      destruct (existsb _ _); exact H2.
Qed.

Lemma exceedsSampleLength_abs (x : Q) (rate : float) :
  (0 < x)%Q ->
  exceedsSampleLength (Qabs (startTime - x)) rate = exceedsSampleLength x rate.
Proof.
  intro Hx. unfold exceedsSampleLength, startTime.
  destruct (sampleLength rate) as [s| | |]; try reflexivity.
  apply eq_true_iff_eq. rewrite !Qlt_bool_iff. split.
  - apply Qabs_case; intros; lra.
  - intro H. apply Qabs_case; intros; lra.
Qed.

(** The test of line 142 without the absolute value. *)
Lemma discontinuity_iff (host : Host) (p : AudioFilePlayerProcessor) :
  discontinuity host p = true
  <-> ((0 < nextStartTime p)%Q
       /\ exceedsSampleLength (nextStartTime p) (getSampleRate host) = true).
Proof.
  unfold discontinuity. rewrite andb_true_iff, Qlt_bool_iff.
  split; intros [A B].
  - split; [exact B|]. now rewrite <- (exceedsSampleLength_abs _ B).
  - split; [|exact A]. now rewrite (exceedsSampleLength_abs _ A).
Qed.

Lemma discontinuity_period (host : Host) (p : AudioFilePlayerProcessor) (s : Q) :
  sampleLength (getSampleRate host) = Finite s ->
  (0 < s)%Q ->
  discontinuity host p = true <-> (s < nextStartTime p)%Q.
Proof.
  intros Hs Hpos. rewrite discontinuity_iff. unfold exceedsSampleLength.
  rewrite Hs, Qlt_bool_iff. split; [tauto|]. intro H. split; [lra|exact H].
Qed.

(** C7 as stated fails: in the block after the first block on the example
    track the test of line 142 is true, and the block emits the Safety Flush
    from it (no track switch is pending and the end-of-timeline branch is not
    taken). *)
Lemma C7_discontinuity_flush_emitted :
  startTime = 0%Q
  /\ afterFirstBlock
     = snd (processBlock (stereoHost true)
              (startWorld (loadMIDIFile exampleDisk songFile idleProcessor)))
  /\ nextStartTime (self afterFirstBlock) = 1.2%Q
  /\ discontinuity (stereoHost true) (self afterFirstBlock) = true
  /\ trackHasChanged (self afterFirstBlock) = false
  /\ endOfTimeline (stereoHost true) (self afterFirstBlock) exampleTrack = false
  /\ addedMessages
       (trace (snd (processBlock (stereoHost true) (startWorld (self afterFirstBlock)))))
     = safetyFlush.
Proof. repeat split. Qed.

(** ** The example timeline *)

Lemma dispatched_frame (host : Host) (theSequence : MidiMessageSequence) (w : World) :
  MIDIFile (self (dispatched host theSequence w)) = MIDIFile (self w)
  /\ numTracks (self (dispatched host theSequence w)) = numTracks (self w)
  /\ currentTrack (self (dispatched host theSequence w)) = currentTrack (self w)
  /\ lumi (self (dispatched host theSequence w)) = lumi (self w).
Proof.
  unfold dispatched, scanned.
  repeat match goal with
         | |- context [if ?b then _ else _] => destruct b
         end; repeat split; reflexivity.
Qed.

Lemma addedMessages_forwardCalls (device : bool) (evs : list MidiEventHolder) :
  addedMessages (flat_map (forwardCalls device) evs) = [].
Proof.
  induction evs as [|ev evs IH]; simpl; [reflexivity|].
  destruct device; simpl; exact IH.
Qed.

Lemma due_exampleTrack :
  due exampleTrack = [eventAt 0.0 noteOn60; eventAt 0.5 noteOn64].
Proof. reflexivity. Qed.

(** C8, as the code has it.  On the example track (events at 0.0 s, 0.5 s
    and 1.2 s, end time 1.2 s), from any state that is not sounding, a block
    with the lock free forwards the events at 0.0 s and 0.5 s, in that order,
    and sets [isPlayingSomething]; the event at 1.2 s is at the end of the
    half-open window and is not forwarded.  The next block with the lock
    free, at a sample rate whose sample period is below 1.2 s, scans from 0
    again: it emits one Safety Flush (from the test of line 142) and then
    forwards the same two events once more. *)
Theorem C8_example_timeline (host next : Host) (p : AudioFilePlayerProcessor) :
  tryEnter host = true ->
  tryEnter next = true ->
  exceedsSampleLength 1.2 (getSampleRate next) = true ->
  MIDIFile p = [exampleTrack] ->
  numTracks p = 1 ->
  currentTrack p = 0 ->
  isPlayingSomething p = false ->
  exists w1 w2,
    processBlock host (startWorld p) = (Some tt, w1)
    /\ lumiCalls (trace w1) = [noteOn60; noteOn64]
    /\ addedMessages (trace w1)
       = (if discontinuity host p then safetyFlush else [])
         ++ (if trackHasChanged p then safetyFlush else [])
    /\ isPlayingSomething (self w1) = true
    /\ processBlock next (startWorld (self w1)) = (Some tt, w2)
    /\ addedMessages (trace w2) = safetyFlush
    /\ lumiCalls (trace w2) = [noteOn60; noteOn64]
    /\ isPlayingSomething (self w2) = true
    /\ trace w2
       = prologue next ++ addEventCalls safetyFlush
           ++ flat_map (forwardCalls (lumi p)) [eventAt 0.0 noteOn60; eventAt 0.5 noteOn64]
           ++ [Exit].
Proof.
  intros Hlock Hnext Hperiod Hfile Hn Hcur Hplay.
  assert (Hquiet : forall es, forallb (fun e => negb (isForward e)) es = true ->
                              lumiCalls es = []) by (intros es H; apply quiet_no_calls, H).
  (* first block *)
  assert (Ht1 : getTrack (MIDIFile (self (startWorld p))) (currentTrack (self (startWorld p)))
                = Some exampleTrack).
  { cbn [startWorld self]. rewrite Hfile, Hcur. reflexivity. }
  assert (Hn1 : 0 < numTracks (self (startWorld p))) by (cbn [startWorld self]; lia).
  assert (He1 : endOfTimeline host (self (startWorld p)) exampleTrack = false).
  { unfold endOfTimeline. now rewrite andb_false_r. }
  destruct (scan_path host (startWorld p) Hlock Hn1 Ht1 He1)
    as (w1 & Hrun1 & Htr1 & _ & Hchg1 & Hflag1).
  cbn [startWorld self trace app] in Htr1, Hflag1.
  (* the processor the first block leaves *)
  assert (Hw1 : w1 = snd (processBlock host (startWorld p))) by now rewrite Hrun1.
  assert (Hframe : MIDIFile (self w1) = [exampleTrack]
                   /\ numTracks (self w1) = 1 /\ currentTrack (self w1) = 0
                   /\ lumi (self w1) = lumi p
                   /\ nextStartTime (self w1) = 1.2%Q).
  { rewrite Hw1, (processBlock_track host (startWorld p) Hlock Hn1 Ht1). cbn [snd].
    rewrite self_logged.
    destruct (dispatched_frame host exampleTrack (logged (prologue host) (startWorld p)))
      as (F1 & F2 & F3 & F4).
    rewrite F1, F2, F3, F4, dispatched_records_endTime. cbn [logged startWorld self].
    repeat split; assumption. }
  destruct Hframe as (Hfile1 & Hnum1 & Hcur1 & Hlumi1 & Hnext1).
  (* second block *)
  assert (Hd2 : discontinuity next (self w1) = true).
  { apply discontinuity_iff. rewrite Hnext1. split; [reflexivity|exact Hperiod]. }
  assert (Ht2 : getTrack (MIDIFile (self (startWorld (self w1))))
                         (currentTrack (self (startWorld (self w1))))
                = Some exampleTrack).
  { cbn [startWorld self]. rewrite Hfile1, Hcur1. reflexivity. }
  assert (Hn2 : 0 < numTracks (self (startWorld (self w1))))
    by (cbn [startWorld self]; lia).
  assert (He2 : endOfTimeline next (self (startWorld (self w1))) exampleTrack = false).
  { unfold endOfTimeline. now rewrite andb_false_r. }
  destruct (scan_path next (startWorld (self w1)) Hnext Hn2 Ht2 He2)
    as (w2 & Hrun2 & Htr2 & _ & _ & Hflag2).
  cbn [startWorld self trace app] in Htr2, Hflag2.
  exists w1, w2.
  split; [exact Hrun1|]. split.
  { rewrite Htr1, !lumiCalls_app, lumiCalls_prologue,
      (Hquiet _ (beforeScan_quiet host p)), lumiCalls_forwardCalls, due_exampleTrack.
    reflexivity. }
  split.
  { rewrite Htr1, !addedMessages_app, addedMessages_prologue, addedMessages_forwardCalls.
    unfold beforeScan. cbn [app addedMessages flat_map]. rewrite app_nil_r.
    rewrite addedMessages_app.
    destruct (discontinuity host p); destruct (trackHasChanged p);
      rewrite ?addedMessages_addEventCalls; reflexivity. }
  split; [rewrite Hflag1; reflexivity|].
  split; [exact Hrun2|]. split.
  { rewrite Htr2, !addedMessages_app, addedMessages_prologue, addedMessages_forwardCalls.
    unfold beforeScan. rewrite Hd2, Hchg1. cbn [app].
    rewrite !app_nil_r. apply addedMessages_addEventCalls. }
  split.
  { rewrite Htr2, !lumiCalls_app, lumiCalls_prologue,
      (Hquiet _ (beforeScan_quiet next (self w1))), lumiCalls_forwardCalls,
      due_exampleTrack.
    reflexivity. }
  split; [rewrite Hflag2; reflexivity|].
  rewrite Htr2, due_exampleTrack, Hlumi1. unfold beforeScan.
  rewrite Hd2, Hchg1, app_nil_r. reflexivity.
Qed.

Lemma C8_witness :
  exists w1 w2,
    processBlock (stereoHost true) (startWorld loadedProcessor) = (Some tt, w1)
    /\ lumiCalls (trace w1) = [noteOn60; noteOn64]
    /\ processBlock (stereoHost true) (startWorld (self w1)) = (Some tt, w2)
    /\ addedMessages (trace w2) = safetyFlush
    /\ lumiCalls (trace w2) = [noteOn60; noteOn64].
Proof.
  destruct (@C8_example_timeline (stereoHost true) (stereoHost true) loadedProcessor
              eq_refl eq_refl eq_refl eq_refl eq_refl eq_refl eq_refl)
    as (w1 & w2 & H1 & H2 & _ & _ & H3 & H4 & H5 & _ & _).
  exists w1, w2. repeat split; assumption.
Defined.

(** C8 as stated fails: the scan of the example track with window
    [[0, 1.2)] forwards two events, not three, and the scan that follows
    forwards them again. *)
Lemma C8_third_event_not_forwarded :
  getEndTime exampleTrack = 1.2%Q
  /\ map (fun ev => getTimeStamp (message ev)) (events exampleTrack) = [0.0; 0.5; 1.2]%Q
  /\ lumiCalls (trace afterFirstBlock) = [noteOn60; noteOn64]
  /\ lumiCalls (trace afterFirstBlock) <> map payload (events exampleTrack)
  /\ isPlayingSomething (self afterFirstBlock) = true
  /\ afterSecondBlock
     = snd (processBlock (stereoHost true) (startWorld (self afterFirstBlock)))
  /\ lumiCalls (trace afterSecondBlock) <> [].
Proof.
  repeat split; try (intro H; vm_compute in H; discriminate H).
Qed.

(** * Further properties *)

(** ** The calls of a block as a function of host and processor *)

Lemma addEvents_app (ms ns : list BufferedMessage) (n : Z) (b : MidiBuffer) :
  addEvents (ms ++ ns) n b = addEvents ns n (addEvents ms n b).
Proof. unfold addEvents. apply fold_left_app. Qed.

Lemma dispatched_calls (host : Host) (theSequence : MidiMessageSequence) (w : World) :
  trace (dispatched host theSequence w)
  = trace w ++ dispatchCalls host theSequence (self w)
  /\ midiMessages (dispatched host theSequence w)
     = addEvents (addedMessages (dispatchCalls host theSequence (self w))) 0
                 (midiMessages w).
Proof.
  unfold dispatchCalls.
  destruct (endOfTimeline host (self w) theSequence) eqn:E.
  - unfold endOfTimeline, soundingAtLine148 in E. unfold dispatched.
    destruct (discontinuity host (self w)); [discriminate|].
    autorewrite with world. rewrite E. autorewrite with world.
    cbn [app]. rewrite addedMessages_addEventCalls. split; reflexivity.
  - destruct (dispatched_scan host theSequence w E)
      as (w3 & Hd & Htr & Hlumi & Hbuf & _ & _).
    rewrite Hd. unfold scanned. cbn [trace midiMessages].
    rewrite Htr, Hlumi, Hbuf. unfold beforeScan, due.
    rewrite !addedMessages_app, addedMessages_forwardCalls, app_nil_r.
    split; [now rewrite <- !app_assoc|reflexivity].
Qed.

Lemma block_calls (host : Host) (w : World) :
  trace (snd (processBlock host w)) = trace w ++ blockCalls host (self w)
  /\ midiMessages (snd (processBlock host w))
     = addEvents (addedMessages (blockCalls host (self w))) 0 (midiMessages w).
Proof.
  unfold blockCalls. rewrite addedMessages_app, addedMessages_prologue. cbn [app].
  destruct (tryEnter host) eqn:Hlock.
  - destruct (Z.ltb_spec 0 (numTracks (self w))) as [Hn|Hn].
    + destruct (getTrack (MIDIFile (self w)) (currentTrack (self w)))
        as [theSequence|] eqn:Htrack.
      * rewrite (processBlock_track host w Hlock Hn Htrack). cbn [snd].
        destruct (dispatched_calls host theSequence (logged (prologue host) w))
          as [Htr Hbuf].
        autorewrite with world in *. rewrite Htr, Hbuf.
        rewrite addedMessages_app, app_nil_r.
        split; [now rewrite <- !app_assoc|reflexivity].
      * rewrite (processBlock_null_track host w Hlock Hn Htrack). cbn [snd].
        autorewrite with world. rewrite app_nil_r. split; reflexivity.
    + rewrite (processBlock_nothing_loaded host w Hlock Hn). cbn [snd].
      autorewrite with world. split; reflexivity.
  - rewrite (processBlock_unlocked host w Hlock). cbn [snd].
    destruct (isPlayingSomething (self w)); autorewrite with world.
    + rewrite addedMessages_addEventCalls. split; [now rewrite <- app_assoc|reflexivity].
    + rewrite app_nil_r. split; reflexivity.
Qed.

(** ** What a block leaves of the processor *)

Lemma dispatched_frame_audio
  (host : Host) (theSequence : MidiMessageSequence) (w : World) :
  transportSource (self (dispatched host theSequence w)) = transportSource (self w)
  /\ currentAudioFileSource (self (dispatched host theSequence w))
     = currentAudioFileSource (self w)
  /\ currentlyLoadedFile (self (dispatched host theSequence w))
     = currentlyLoadedFile (self w).
Proof.
  unfold dispatched, scanned.
  repeat match goal with
         | |- context [if ?b then _ else _] => destruct b
         end; repeat split; reflexivity.
Qed.

Lemma dispatched_trackHasChanged
  (host : Host) (theSequence : MidiMessageSequence) (w : World) :
  trackHasChanged (self (dispatched host theSequence w)) = true ->
  trackHasChanged (self w) = true.
Proof.
  unfold dispatched, scanned.
  destruct (discontinuity host (self w));
    cbv [updated flushed]; cbn [self midiMessages trace];
    cbn [isPlayingSomething trackHasChanged set_nextStartTime set_isPlayingSomething
         set_trackHasChanged];
    repeat match goal with
           | |- context [if ?b then _ else _] => destruct b eqn:?
           end;
    cbn [self isPlayingSomething trackHasChanged set_nextStartTime
         set_isPlayingSomething set_trackHasChanged];
    intro H; congruence.
Qed.

Lemma trackValid_spec (p : AudioFilePlayerProcessor) :
  trackValid p = true
  <-> (numTracks p <= 0
       \/ exists theSequence, getTrack (MIDIFile p) (currentTrack p) = Some theSequence).
Proof.
  unfold trackValid. rewrite orb_true_iff, Z.leb_le.
  destruct (getTrack (MIDIFile p) (currentTrack p)) as [s|].
  - split; intros _; right; [exists s|]; reflexivity.
  - split; intros [H|H]; try (left; exact H); [discriminate|].
    destruct H as [s Hs]. discriminate.
Qed.

(** X1.  A block returns exactly when the lock is not acquired or the
    dispatcher can reach a track: no track counted, or a track at
    [currentTrack].  With tracks counted and [currentTrack] out of range the
    block dereferences the null track pointer. *)
Theorem X1_block_returns_iff_track_reachable (host : Host) (w : World) :
  fst (processBlock host w) = Some tt
  <-> (tryEnter host = false \/ trackValid (self w) = true).
Proof.
  rewrite trackValid_spec.
  destruct (tryEnter host) eqn:Hlock.
  - destruct (Z.ltb_spec 0 (numTracks (self w))) as [Hn|Hn].
    + destruct (getTrack (MIDIFile (self w)) (currentTrack (self w)))
        as [theSequence|] eqn:Htrack.
      * rewrite (processBlock_track host w Hlock Hn Htrack). cbn [fst].
        split; [intros _; right; right; now exists theSequence|reflexivity].
      * rewrite (processBlock_null_track host w Hlock Hn Htrack). cbn [fst].
        split; [discriminate|].
        intros [H|[H|[s H]]]; [discriminate|lia|discriminate].
    + rewrite (processBlock_nothing_loaded host w Hlock Hn). cbn [fst].
      split; [intros _; right; left; exact Hn|reflexivity].
  - rewrite (processBlock_unlocked host w Hlock). cbn [fst].
    split; [intros _; now left|reflexivity].
Qed.

(** X2.  The real-time callback writes only its own three fields.  Whatever
    the branch, a block leaves the timeline, the track count, the current
    track, the device pointer, the transport, the audio source and the loaded
    file as they were; it never sets [trackHasChanged]; and it leaves
    [nextStartTime] alone or sets it to the end time of the current track. *)
Theorem X2_block_writes_only_its_own_fields (host : Host) (w : World) :
  let p := self w in
  let p' := self (snd (processBlock host w)) in
  MIDIFile p' = MIDIFile p
  /\ numTracks p' = numTracks p
  /\ currentTrack p' = currentTrack p
  /\ lumi p' = lumi p
  /\ transportSource p' = transportSource p
  /\ currentAudioFileSource p' = currentAudioFileSource p
  /\ currentlyLoadedFile p' = currentlyLoadedFile p
  /\ (trackHasChanged p' = true -> trackHasChanged p = true)
  /\ (nextStartTime p' = nextStartTime p
      \/ exists theSequence,
           getTrack (MIDIFile p) (currentTrack p) = Some theSequence
           /\ nextStartTime p' = getEndTime theSequence).
Proof.
  cbv zeta.
  destruct (tryEnter host) eqn:Hlock.
  - destruct (Z.ltb_spec 0 (numTracks (self w))) as [Hn|Hn].
    + destruct (getTrack (MIDIFile (self w)) (currentTrack (self w)))
        as [theSequence|] eqn:Htrack.
      * rewrite (processBlock_track host w Hlock Hn Htrack). cbn [snd].
        rewrite self_logged.
        destruct (dispatched_frame host theSequence (logged (prologue host) w))
          as (F1 & F2 & F3 & F4).
        destruct (dispatched_frame_audio host theSequence (logged (prologue host) w))
          as (F5 & F6 & F7).
        rewrite F1, F2, F3, F4, F5, F6, F7. autorewrite with world.
        repeat split.
        -- apply (dispatched_trackHasChanged host theSequence (logged (prologue host) w)).
        -- right. exists theSequence. split; [reflexivity|].
           apply dispatched_records_endTime.
      * rewrite (processBlock_null_track host w Hlock Hn Htrack). cbn [snd].
        autorewrite with world. repeat split; auto.
    + rewrite (processBlock_nothing_loaded host w Hlock Hn). cbn [snd].
      autorewrite with world. repeat split; auto.
  - rewrite (processBlock_unlocked host w Hlock). cbn [snd].
    destruct (isPlayingSomething (self w)); autorewrite with world;
      repeat split; auto.
Qed.

(** ** Branches outside the scan *)

(** X3.  With the lock acquired and no track counted the block does nothing
    for MIDI: it returns, adds no message, calls the sink for nothing and
    leaves processor and buffer as they were, also when [isPlayingSomething]
    is set (the flush of a sounding state is made only when the lock is not
    acquired or a track is current). *)
Theorem X3_no_tracks_no_flush (host : Host) (w : World) :
  tryEnter host = true ->
  numTracks (self w) <= 0 ->
  exists w' calls,
    processBlock host w = (Some tt, w')
    /\ trace w' = trace w ++ calls
    /\ addedMessages calls = []
    /\ lumiCalls calls = []
    /\ midiMessages w' = midiMessages w
    /\ self w' = self w.
Proof.
  intros Hlock Hn. rewrite (processBlock_nothing_loaded host w Hlock Hn).
  exists (logged (prologue host ++ [Exit]) w), (prologue host ++ [Exit]).
  split; [reflexivity|]. split; [reflexivity|].
  rewrite addedMessages_app, lumiCalls_app, addedMessages_prologue, lumiCalls_prologue.
  repeat split; reflexivity.
Qed.

Lemma X3_witness :
  exists w',
    processBlock (stereoHost true)
      (startWorld (set_isPlayingSomething true idleProcessor)) = (Some tt, w')
    /\ isPlayingSomething (self w') = true
    /\ midiMessages w' = [].
Proof.
  destruct (@X3_no_tracks_no_flush (stereoHost true)
              (startWorld (set_isPlayingSomething true idleProcessor))
              eq_refl ltac:(discriminate))
    as (w' & calls & Hrun & _ & _ & _ & Hbuf & Hself).
  exists w'. split; [exact Hrun|]. split; [now rewrite Hself|exact Hbuf].
Defined.

(** X4.  The end-of-timeline branch is taken only for a track whose end time
    is not positive and only when the test of line 142 did not fire.  The
    block then adds exactly one Safety Flush, calls the sink for nothing,
    leaves [isPlayingSomething] false and records the end time; a pending
    [trackHasChanged] is not cleared. *)
Theorem X4_end_of_timeline_branch
  (host : Host) (w : World) (theSequence : MidiMessageSequence) :
  tryEnter host = true ->
  0 < numTracks (self w) ->
  getTrack (MIDIFile (self w)) (currentTrack (self w)) = Some theSequence ->
  endOfTimeline host (self w) theSequence = true ->
  exists w' calls,
    processBlock host w = (Some tt, w')
    /\ trace w' = trace w ++ calls
    /\ addedMessages calls = safetyFlush
    /\ lumiCalls calls = []
    /\ isPlayingSomething (self w') = false
    /\ trackHasChanged (self w') = trackHasChanged (self w)
    /\ nextStartTime (self w') = getEndTime theSequence
    /\ (getEndTime theSequence <= 0)%Q
    /\ isPlayingSomething (self w) = true
    /\ discontinuity host (self w) = false.
Proof.
  intros Hlock Hn Htrack Hend.
  destruct (end_path host w Hlock Hn Htrack Hend) as (w' & Hrun & Htr & Hflag).
  exists w', (prologue host ++ addEventCalls safetyFlush ++ [Exit]).
  split; [exact Hrun|]. split; [exact Htr|].
  split.
  { rewrite !addedMessages_app, addedMessages_prologue, addedMessages_addEventCalls.
    cbn [app]. now rewrite app_nil_r. }
  split.
  { rewrite !lumiCalls_app, lumiCalls_prologue, lumiCalls_addEventCalls. reflexivity. }
  split; [exact Hflag|].
  assert (Hw : w' = snd (processBlock host w)) by now rewrite Hrun.
  unfold endOfTimeline, soundingAtLine148 in Hend.
  destruct (discontinuity host (self w)) eqn:D; [discriminate|].
  apply andb_true_iff in Hend as [Hplay Hle].
  split.
  { rewrite Hw, (processBlock_track host w Hlock Hn Htrack). cbn [snd].
    unfold dispatched. autorewrite with world. rewrite D. autorewrite with world.
    rewrite Hplay, Hle. reflexivity. }
  split.
  { rewrite Hw, (processBlock_track host w Hlock Hn Htrack). cbn [snd].
    rewrite self_logged. apply dispatched_records_endTime. }
  split; [apply Qle_bool_iff; exact Hle|]. split; [exact Hplay|reflexivity].
Qed.

Lemma X4_witness :
  exists w',
    processBlock (stereoHost true) (startWorld exhaustedProcessor) = (Some tt, w')
    /\ addedMessages (trace w') = safetyFlush
    /\ trackHasChanged (self w') = true.
Proof.
  destruct (@X4_end_of_timeline_branch (stereoHost true) (startWorld exhaustedProcessor)
              emptyTrack eq_refl eq_refl eq_refl eq_refl)
    as (w' & calls & Hrun & Htr & Hadded & _ & _ & Hchg & _).
  exists w'. split; [exact Hrun|]. split; [|exact Hchg].
  rewrite Htr. exact Hadded.
Defined.

(** ** What reaches the sink and the device *)

Lemma due_nil_when_ended (theSequence : MidiMessageSequence) :
  (getEndTime theSequence <= 0)%Q -> due theSequence = [].
Proof.
  intro Hend. unfold due.
  induction (events theSequence) as [|ev evs IH]; [reflexivity|].
  cbn [filter]. rewrite IH.
  destruct (inWindow (getEndTime theSequence) ev) eqn:E; [|reflexivity].
  unfold inWindow, startTime in E. apply andb_true_iff in E as [Hlo Hhi].
  apply Qle_bool_iff in Hlo. apply Qlt_bool_iff in Hhi. lra.
Qed.

Lemma lumiCalls_dispatchCalls
  (host : Host) (theSequence : MidiMessageSequence) (p : AudioFilePlayerProcessor) :
  lumiCalls (dispatchCalls host theSequence p)
  = if endOfTimeline host p theSequence then [] else map payload (due theSequence).
Proof.
  unfold dispatchCalls. rewrite lumiCalls_app.
  replace (lumiCalls (if discontinuity host p then addEventCalls safetyFlush else []))
    with (@nil (list byte))
    by (destruct (discontinuity host p); [now rewrite lumiCalls_addEventCalls|reflexivity]).
  cbn [app]. destruct (endOfTimeline host p theSequence).
  - apply lumiCalls_addEventCalls.
  - rewrite lumiCalls_app, lumiCalls_forwardCalls.
    destruct (trackHasChanged p); [now rewrite lumiCalls_addEventCalls|reflexivity].
Qed.

Lemma deviceSends_addEventCalls (ms : list BufferedMessage) :
  deviceSends (addEventCalls ms) = [].
Proof. induction ms as [|m ms IH]; simpl; [reflexivity|exact IH]. Qed.

Lemma deviceSends_forwardCalls_none (evs : list MidiEventHolder) :
  deviceSends (flat_map (forwardCalls false) evs) = [].
Proof. induction evs as [|ev evs IH]; simpl; [reflexivity|exact IH]. Qed.

Lemma deviceSends_dispatchCalls
  (host : Host) (theSequence : MidiMessageSequence) (p : AudioFilePlayerProcessor) :
  deviceSends (dispatchCalls host theSequence p)
  = if lumi p then lumiCalls (dispatchCalls host theSequence p) else [].
Proof.
  rewrite lumiCalls_dispatchCalls. unfold dispatchCalls. rewrite deviceSends_app.
  replace (deviceSends (if discontinuity host p then addEventCalls safetyFlush else []))
    with (@nil (list byte))
    by (destruct (discontinuity host p); [now rewrite deviceSends_addEventCalls|reflexivity]).
  cbn [app]. destruct (endOfTimeline host p theSequence).
  - rewrite deviceSends_addEventCalls. now destruct (lumi p).
  - rewrite deviceSends_app.
    replace (deviceSends (if trackHasChanged p then addEventCalls safetyFlush else []))
      with (@nil (list byte))
      by (destruct (trackHasChanged p); [now rewrite deviceSends_addEventCalls|reflexivity]).
    cbn [app]. destruct (lumi p);
      [apply deviceSends_forwardCalls|apply deviceSends_forwardCalls_none].
Qed.

(** X5.  Whatever the state and the branch, a block hands the sink either
    nothing or exactly the due events of the current track, in stored order;
    and it hands it something only with the lock acquired, for a track whose
    end time is positive. *)
Theorem X5_sink_gets_nothing_or_the_due_events (host : Host) (w : World) :
  exists calls,
    trace (snd (processBlock host w)) = trace w ++ calls
    /\ (lumiCalls calls = []
        \/ exists theSequence,
             tryEnter host = true
             /\ getTrack (MIDIFile (self w)) (currentTrack (self w)) = Some theSequence
             /\ (0 < getEndTime theSequence)%Q
             /\ lumiCalls calls = map payload (due theSequence)).
Proof.
  exists (blockCalls host (self w)). split; [apply block_calls|].
  unfold blockCalls. rewrite lumiCalls_app, lumiCalls_prologue. cbn [app].
  destruct (tryEnter host) eqn:Hlock.
  - destruct (0 <? numTracks (self w)); [|now left].
    destruct (getTrack (MIDIFile (self w)) (currentTrack (self w)))
      as [theSequence|] eqn:Htrack; [|now left].
    rewrite lumiCalls_app, lumiCalls_dispatchCalls, app_nil_r.
    destruct (endOfTimeline host (self w) theSequence); [now left|].
    destruct (Qlt_le_dec 0 (getEndTime theSequence)) as [Hpos|Hneg].
    + right. exists theSequence. repeat split; assumption.
    + left. now rewrite (due_nil_when_ended theSequence Hneg).
  - left. destruct (isPlayingSomething (self w));
      [apply lumiCalls_addEventCalls|reflexivity].
Qed.

(** X6.  The device receives exactly what the sink is handed when the
    [lumi] pointer is set, and nothing when it is null. *)
Theorem X6_device_gets_the_sink_calls_when_attached (host : Host) (w : World) :
  exists calls,
    trace (snd (processBlock host w)) = trace w ++ calls
    /\ deviceSends calls = (if lumi (self w) then lumiCalls calls else []).
Proof.
  exists (blockCalls host (self w)). split; [apply block_calls|].
  unfold blockCalls. rewrite deviceSends_app, lumiCalls_app, lumiCalls_prologue.
  destruct (quiet_no_calls _ (prologue_quiet host)) as [_ Hq]. rewrite Hq. cbn [app].
  destruct (tryEnter host).
  - destruct (0 <? numTracks (self w)); [|now destruct (lumi (self w))].
    destruct (getTrack (MIDIFile (self w)) (currentTrack (self w))) as [theSequence|];
      [|now destruct (lumi (self w))].
    rewrite deviceSends_app, lumiCalls_app, deviceSends_dispatchCalls. cbn [deviceSends
      lumiCalls flat_map app]. rewrite !app_nil_r. reflexivity.
  - destruct (isPlayingSomething (self w)).
    + rewrite deviceSends_addEventCalls, lumiCalls_addEventCalls.
      now destruct (lumi (self w)).
    + now destruct (lumi (self w)).
Qed.

(** ** The MIDI buffer across a block *)

Lemma takeWhile_dropWhile {A} (f : A -> bool) (l : list A) :
  takeWhile f l ++ dropWhile f l = l.
Proof.
  induction l as [|x l IH]; simpl; [reflexivity|].
  destruct (f x); simpl; [now rewrite IH|reflexivity].
Qed.

Lemma addedMessages_dispatchCalls
  (host : Host) (theSequence : MidiMessageSequence) (p : AudioFilePlayerProcessor) :
  addedMessages (dispatchCalls host theSequence p)
  = (if discontinuity host p then safetyFlush else [])
    ++ (if endOfTimeline host p theSequence then safetyFlush
        else if trackHasChanged p then safetyFlush else []).
Proof.
  unfold dispatchCalls. rewrite addedMessages_app. f_equal.
  - destruct (discontinuity host p); [apply addedMessages_addEventCalls|reflexivity].
  - destruct (endOfTimeline host p theSequence); [apply addedMessages_addEventCalls|].
    rewrite addedMessages_app, addedMessages_forwardCalls, app_nil_r.
    destruct (trackHasChanged p); [apply addedMessages_addEventCalls|reflexivity].
Qed.

(** The messages a block adds: none, one Safety Flush, or two. *)
Lemma addedMessages_blockCalls (host : Host) (p : AudioFilePlayerProcessor) :
  addedMessages (blockCalls host p) = []
  \/ addedMessages (blockCalls host p) = safetyFlush
  \/ (addedMessages (blockCalls host p) = safetyFlush ++ safetyFlush
      /\ tryEnter host = true
      /\ discontinuity host p = true
      /\ trackHasChanged p = true).
Proof.
  unfold blockCalls. rewrite addedMessages_app, addedMessages_prologue. cbn [app].
  destruct (tryEnter host).
  - destruct (0 <? numTracks p); [|now left].
    destruct (getTrack (MIDIFile p) (currentTrack p)) as [theSequence|]; [|now left].
    rewrite addedMessages_app, addedMessages_dispatchCalls, app_nil_r.
    unfold endOfTimeline, soundingAtLine148.
    destruct (discontinuity host p); cbn [andb app].
    + destruct (trackHasChanged p).
      * right; right. repeat split; reflexivity.
      * right; left. now rewrite app_nil_r.
    + destruct (isPlayingSomething p && Qle_bool (getEndTime theSequence) startTime);
        [now (right; left)|].
      destruct (trackHasChanged p); [right; left|left]; reflexivity.
  - destruct (isPlayingSomething p);
      [right; left; apply addedMessages_addEventCalls|left; reflexivity].
Qed.

(** X7.  A block never removes or reorders what the host put in the MIDI
    buffer.  The buffer after the block is the buffer before it with the
    added messages at sample position 0, behind the events the buffer had up
    to position 0 and in front of its later events; the added messages are
    nothing, one Safety Flush (48 messages) or two (96), two only when both
    the test of line 142 and a track switch flush in one block. *)
Theorem X7_buffer_keeps_host_events (host : Host) (w : World) :
  exists added,
    midiMessages (snd (processBlock host w)) = withAtZero added (midiMessages w)
    /\ hostEvents (midiMessages (snd (processBlock host w)))
       = hostEvents (midiMessages w)
    /\ (added = []
        \/ added = safetyFlush
        \/ (added = safetyFlush ++ safetyFlush
            /\ tryEnter host = true
            /\ discontinuity host (self w) = true
            /\ trackHasChanged (self w) = true))
    /\ (List.length (midiMessages (snd (processBlock host w)))
        = List.length (midiMessages w) + List.length added)%nat.
Proof.
  exists (addedMessages (blockCalls host (self w))).
  destruct (block_calls host w) as [_ Hbuf]. rewrite Hbuf, addEvents_split.
  fold (withAtZero (addedMessages (blockCalls host (self w))) (midiMessages w)).
  split; [reflexivity|].
  pose proof (addedMessages_blockCalls host (self w)) as Hadded.
  split.
  { unfold withAtZero, hostEvents. rewrite !filter_app.
    assert (Hnone : filter (fun e => match bufferedMessage e with
                                     | hostMessage _ => true | _ => false end)
                      (map (fun m => mkBufferedEvent m 0)
                           (addedMessages (blockCalls host (self w)))) = []).
    { destruct Hadded as [H|[H|[H _]]]; rewrite H; reflexivity. }
    rewrite Hnone. cbn [app]. rewrite <- filter_app.
    now rewrite takeWhile_dropWhile. }
  split; [exact Hadded|].
  unfold withAtZero. rewrite !length_app, length_map.
  rewrite <- (takeWhile_dropWhile (notAfter 0) (midiMessages w)) at 3.
  rewrite length_app. lia.
Qed.

(** ** Block after block *)

Lemma due_positive_end (theSequence : MidiMessageSequence) :
  due theSequence <> [] -> Qle_bool (getEndTime theSequence) startTime = false.
Proof.
  intro Hdue. destruct (Qle_bool (getEndTime theSequence) startTime) eqn:E;
    [|reflexivity].
  apply Qle_bool_iff in E. elim Hdue. apply due_nil_when_ended. exact E.
Qed.

(** X8.  The scan always starts at time 0.  When a block on the scan path
    forwards at least one event, the next block that acquires the lock
    (whatever its host values and its buffer) is on the scan path again and
    hands the sink the same payloads in the same order once more. *)
Theorem X8_due_events_are_forwarded_again
  (host next : Host) (buffer : MidiBuffer) (w : World)
  (theSequence : MidiMessageSequence) :
  tryEnter host = true ->
  tryEnter next = true ->
  0 < numTracks (self w) ->
  getTrack (MIDIFile (self w)) (currentTrack (self w)) = Some theSequence ->
  endOfTimeline host (self w) theSequence = false ->
  due theSequence <> [] ->
  exists w1 w2,
    processBlock host w = (Some tt, w1)
    /\ lumiCalls (trace w1) = lumiCalls (trace w) ++ map payload (due theSequence)
    /\ processBlock next (mkWorld (self w1) buffer (trace w1)) = (Some tt, w2)
    /\ lumiCalls (trace w2)
       = lumiCalls (trace w) ++ map payload (due theSequence)
           ++ map payload (due theSequence).
Proof.
  intros Hlock Hnext Hn Htrack Hend Hdue.
  destruct (scan_path host w Hlock Hn Htrack Hend) as (w1 & Hrun1 & Htr1 & _ & _ & _).
  assert (Hw1 : w1 = snd (processBlock host w)) by now rewrite Hrun1.
  assert (Hframe : MIDIFile (self w1) = MIDIFile (self w)
                   /\ numTracks (self w1) = numTracks (self w)
                   /\ currentTrack (self w1) = currentTrack (self w)).
  { rewrite Hw1, (processBlock_track host w Hlock Hn Htrack). cbn [snd].
    rewrite self_logged.
    destruct (dispatched_frame host theSequence (logged (prologue host) w))
      as (F1 & F2 & F3 & _).
    autorewrite with world in *. auto. }
  destruct Hframe as (F1 & F2 & F3).
  set (v := mkWorld (self w1) buffer (trace w1)).
  assert (Hn2 : 0 < numTracks (self v)) by (cbn [v self]; lia).
  assert (Ht2 : getTrack (MIDIFile (self v)) (currentTrack (self v)) = Some theSequence)
    by (cbn [v self]; now rewrite F1, F3).
  assert (He2 : endOfTimeline next (self v) theSequence = false).
  { unfold endOfTimeline. rewrite (@due_positive_end theSequence Hdue). apply andb_false_r. }
  destruct (scan_path next v Hnext Hn2 Ht2 He2) as (w2 & Hrun2 & Htr2 & _ & _ & _).
  assert (Hcalls1 : lumiCalls (trace w1)
                    = lumiCalls (trace w) ++ map payload (due theSequence)).
  { rewrite Htr1, !lumiCalls_app, lumiCalls_prologue, lumiCalls_forwardCalls.
    destruct (quiet_no_calls _ (beforeScan_quiet host (self w))) as [Hq _].
    rewrite Hq. cbn [app lumiCalls flat_map]. now rewrite app_nil_r. }
  exists w1, w2. split; [exact Hrun1|]. split; [exact Hcalls1|].
  split; [exact Hrun2|].
  rewrite Htr2. cbn [v trace].
  rewrite !lumiCalls_app, lumiCalls_prologue, lumiCalls_forwardCalls, Hcalls1.
  destruct (quiet_no_calls _ (beforeScan_quiet next (self v))) as [Hq _].
  rewrite Hq. cbn [app lumiCalls flat_map]. now rewrite app_nil_r, <- app_assoc.
Qed.

Lemma X8_witness :
  exists w1 w2,
    processBlock (stereoHost true) (startWorld loadedProcessor) = (Some tt, w1)
    /\ processBlock (stereoHost true) (mkWorld (self w1) hostBuffer (trace w1))
       = (Some tt, w2)
    /\ lumiCalls (trace w2) = [noteOn60; noteOn64; noteOn60; noteOn64].
Proof.
  destruct (@X8_due_events_are_forwarded_again
              (stereoHost true) (stereoHost true) hostBuffer
              (startWorld loadedProcessor) exampleTrack
              eq_refl eq_refl eq_refl eq_refl eq_refl ltac:(discriminate))
    as (w1 & w2 & H1 & _ & H2 & H3).
  exists w1, w2. split; [exact H1|]. split; [exact H2|exact H3].
Defined.

Lemma block_returns (host : Host) (w : World) :
  trackValid (self w) = true -> fst (processBlock host w) = Some tt.
Proof.
  intro Hvalid. apply trackValid_spec in Hvalid.
  destruct (tryEnter host) eqn:Hlock;
    [|now rewrite (processBlock_unlocked host w Hlock)].
  destruct (Z.ltb_spec 0 (numTracks (self w))) as [Hn|Hn];
    [|now rewrite (processBlock_nothing_loaded host w Hlock Hn)].
  destruct Hvalid as [H|[s Hs]]; [lia|].
  now rewrite (processBlock_track host w Hlock Hn Hs).
Qed.

Lemma block_keeps_track (host : Host) (w : World) :
  MIDIFile (self (snd (processBlock host w))) = MIDIFile (self w)
  /\ numTracks (self (snd (processBlock host w))) = numTracks (self w)
  /\ currentTrack (self (snd (processBlock host w))) = currentTrack (self w).
Proof.
  destruct (tryEnter host) eqn:Hlock.
  - destruct (Z.ltb_spec 0 (numTracks (self w))) as [Hn|Hn].
    + destruct (getTrack (MIDIFile (self w)) (currentTrack (self w)))
        as [theSequence|] eqn:Htrack.
      * rewrite (processBlock_track host w Hlock Hn Htrack). cbn [snd].
        rewrite self_logged.
        destruct (dispatched_frame host theSequence (logged (prologue host) w))
          as (F1 & F2 & F3 & _).
        autorewrite with world in *. auto.
      * rewrite (processBlock_null_track host w Hlock Hn Htrack). cbn [snd].
        autorewrite with world. auto.
    + rewrite (processBlock_nothing_loaded host w Hlock Hn). cbn [snd].
      autorewrite with world. auto.
  - rewrite (processBlock_unlocked host w Hlock). cbn [snd].
    destruct (isPlayingSomething (self w)); autorewrite with world; auto.
Qed.

Lemma block_keeps_trackValid (host : Host) (w : World) :
  trackValid (self (snd (processBlock host w))) = trackValid (self w).
Proof.
  destruct (block_keeps_track host w) as (F1 & F2 & F3).
  unfold trackValid. now rewrite F1, F2, F3.
Qed.

Lemma countPulls_app (es fs : list Effect) :
  countPulls (es ++ fs) = (countPulls es + countPulls fs)%nat.
Proof. unfold countPulls. now rewrite filter_app, length_app. Qed.

Lemma countTryEnters_app (es fs : list Effect) :
  countTryEnters (es ++ fs) = (countTryEnters es + countTryEnters fs)%nat.
Proof. unfold countTryEnters. now rewrite filter_app, length_app. Qed.

Lemma afterLock_counts (es : list Effect) :
  forallb afterLock es = true -> countPulls es = 0%nat /\ countTryEnters es = 0%nat.
Proof.
  unfold countPulls, countTryEnters.
  induction es as [|e es IH]; [split; reflexivity|].
  cbn [forallb filter]. intro H. apply andb_true_iff in H as [He Hes].
  destruct (IH Hes) as [IH1 IH2].
  unfold afterLock in He. apply andb_true_iff in He as [H1 H2].
  apply negb_true_iff in H1, H2. rewrite H1, H2. split; assumption.
Qed.

Lemma block_counts (host : Host) (w : World) :
  exists calls,
    trace (snd (processBlock host w)) = trace w ++ calls
    /\ countPulls calls = 1%nat /\ countTryEnters calls = 1%nat.
Proof.
  destruct (every_block host w) as (rest & Htr & Hrest & _).
  exists (prologue host ++ rest). split; [exact Htr|].
  destruct (afterLock_counts _ Hrest) as [R1 R2].
  destruct (afterLock_counts _ (afterLock_clears host)) as [C1 C2].
  unfold prologue.
  rewrite !countPulls_app, !countTryEnters_app, R1, R2, C1, C2. split; reflexivity.
Qed.

(** X9.  Audio never stalls on MIDI.  From a state in which the dispatcher
    can reach a track, any run of blocks (each with its own host values,
    lock outcome and MIDI buffer) returns, makes exactly one audio pull and
    one lock attempt per block, and ends in a state in which the dispatcher
    can still reach a track. *)
Theorem X9_one_audio_pull_per_block (blocks : list (Host * MidiBuffer)) (w : World) :
  trackValid (self w) = true ->
  exists w' calls,
    runBlocks blocks w = (Some tt, w')
    /\ trace w' = trace w ++ calls
    /\ countPulls calls = List.length blocks
    /\ countTryEnters calls = List.length blocks
    /\ trackValid (self w') = true.
Proof.
  unfold runBlocks. revert w. induction blocks as [|[host buffer] blocks IH]; intros w Hvalid.
  - exists w, []. cbn [forEach]. unfold ret. rewrite app_nil_r. repeat split; auto.
  - cbn [forEach]. unfold bind at 1. unfold hostBlock at 1. unfold bind at 1.
    cbn [fst snd].
    set (v := mkWorld (self w) buffer (trace w)).
    pose proof (@block_returns host v Hvalid) as Hret.
    destruct (block_counts host v) as (calls & Htr & Hp & Ht).
    pose proof (block_keeps_trackValid host v) as Hkeep.
    destruct (processBlock host v) as [r v'] eqn:Hrun. cbn [fst snd] in *.
    subst r.
    assert (Hvalid' : trackValid (self v') = true) by (rewrite Hkeep; exact Hvalid).
    destruct (IH v' Hvalid') as (w' & calls' & Hrun' & Htr' & Hp' & Ht' & Hv').
    exists w', (calls ++ calls'). split; [exact Hrun'|].
    split; [rewrite Htr', Htr; cbn [v trace]; now rewrite <- app_assoc|].
    rewrite countPulls_app, countTryEnters_app, Hp, Ht, Hp', Ht'.
    repeat split; auto.
Qed.

Lemma X9_witness :
  exists w',
    runBlocks [(stereoHost true, []); (stereoHost false, hostBuffer);
               (stereoHost true, [])] (startWorld loadedProcessor) = (Some tt, w')
    /\ countPulls (trace w') = 3%nat.
Proof.
  destruct (@X9_one_audio_pull_per_block
              [(stereoHost true, []); (stereoHost false, hostBuffer);
               (stereoHost true, [])] (startWorld loadedProcessor) eq_refl)
    as (w' & calls & Hrun & Htr & Hp & _).
  exists w'. split; [exact Hrun|]. rewrite Htr. exact Hp.
Defined.

(** ** The loaders, composed *)

(** X10.  Every call of [loadMIDIFile], successful or not, leaves a state
    the dispatcher can run on: [numTracks] is the number of tracks of the
    timeline, [currentTrack] is 0, and when there is a track the current
    track is the first one of the file. *)
Theorem X10_load_leaves_a_reachable_track
  (disk : Disk) (file : File) (p : AudioFilePlayerProcessor) :
  let p' := loadMIDIFile disk file p in
  trackValid p' = true
  /\ numTracks p' = getNumTracks (MIDIFile p')
  /\ 0 <= numTracks p'
  /\ (0 < numTracks p' ->
      exists first,
        hd_error (readFromTracks (disk file)) = Some first
        /\ getTrack (MIDIFile p') (currentTrack p')
           = Some (convertTrack (convertTicksToSeconds (disk file)) first)).
Proof.
  cbv zeta. unfold loadMIDIFile, trackValid.
  cbn [MIDIFile numTracks currentTrack set_MIDIFile set_numTracks set_currentTrack
       set_trackHasChanged].
  destruct (readFromTracks (disk file)) as [|first rest].
  - cbn. repeat split; try reflexivity; try discriminate.
  - assert (Htrack : getTrack (convertTimestampTicksToSeconds
                                 (convertTicksToSeconds (disk file)) (first :: rest)) 0
                     = Some (convertTrack (convertTicksToSeconds (disk file)) first)).
    { unfold getTrack, getNumTracks. cbn [convertTimestampTicksToSeconds map List.length].
      replace (0 <? Z.of_nat (S (List.length (map (convertTrack
                 (convertTicksToSeconds (disk file))) rest)))) with true
        by (symmetry; apply Z.ltb_lt; lia).
      reflexivity. }
    rewrite Htrack, orb_true_r.
    split; [reflexivity|]. split; [reflexivity|].
    split; [unfold getNumTracks; lia|].
    intros _. exists first. split; reflexivity.
Qed.

(** X11.  A later load supersedes an earlier one: the state after two loads
    of MIDI files is the state after the second alone, and the same holds for
    two loads of audio files (whatever the files hold at each load). *)
Theorem X11_second_load_supersedes_first
  (disk1 disk2 : Disk) (file1 file2 : File) (p : AudioFilePlayerProcessor) :
  loadMIDIFile disk2 file2 (loadMIDIFile disk1 file1 p) = loadMIDIFile disk2 file2 p
  /\ loadAudioFileIntoTransport disk2 file2 (loadAudioFileIntoTransport disk1 file1 p)
     = loadAudioFileIntoTransport disk2 file2 p.
Proof.
  split; [reflexivity|].
  unfold loadAudioFileIntoTransport.
  destruct (createReaderFor (disk1 file1)); destruct (createReaderFor (disk2 file2));
    reflexivity.
Qed.

(** X12.  The two loaders are independent: loading a MIDI file and an audio
    file gives the same state in either order; the MIDI load keeps the whole
    audio side and the audio load keeps the timeline and the Playback State. *)
Theorem X12_loaders_commute
  (disk : Disk) (midiFile audioFile : File) (p : AudioFilePlayerProcessor) :
  loadAudioFileIntoTransport disk audioFile (loadMIDIFile disk midiFile p)
  = loadMIDIFile disk midiFile (loadAudioFileIntoTransport disk audioFile p)
  /\ transportSource (loadMIDIFile disk midiFile p) = transportSource p
  /\ currentAudioFileSource (loadMIDIFile disk midiFile p) = currentAudioFileSource p
  /\ currentlyLoadedFile (loadMIDIFile disk midiFile p) = currentlyLoadedFile p
  /\ MIDIFile (loadAudioFileIntoTransport disk audioFile p) = MIDIFile p
  /\ playbackState (loadAudioFileIntoTransport disk audioFile p) = playbackState p.
Proof.
  unfold loadAudioFileIntoTransport.
  destruct (createReaderFor (disk audioFile)); repeat split; reflexivity.
Qed.

(** ** The audio source *)

Lemma loadAudio_sourceOwned (disk : Disk) (file : File) (p : AudioFilePlayerProcessor) :
  sourceOwned (loadAudioFileIntoTransport disk file p).
Proof.
  unfold sourceOwned, loadAudioFileIntoTransport.
  destruct (createReaderFor (disk file)); cbn; [repeat split|exact I].
Qed.

(** X13.  Ownership of the audio source.  After every audio load, from any
    state, the transport is stopped and the source installed in it, if any,
    is the one the processor owns, with a read-ahead of 32768 samples and the
    sample rate of its reader; a source is installed exactly when a decoder
    was found.  A MIDI load, a restore of saved state, the destructor and
    every block keep that ownership. *)
Theorem X13_installed_source_is_owned
  (xml : XmlReader) (disk : Disk) (file : File) (xmlState : option XmlElement)
  (host : Host) (w : World) (p : AudioFilePlayerProcessor) :
  (sourceOwned (loadAudioFileIntoTransport disk file p)
   /\ playing (transportSource (loadAudioFileIntoTransport disk file p)) = false
   /\ (source (transportSource (loadAudioFileIntoTransport disk file p)) <> None
       <-> createReaderFor (disk file) <> None))
  /\ (sourceOwned p -> sourceOwned (loadMIDIFile disk file p))
  /\ (sourceOwned p -> sourceOwned (setStateInformation xml disk xmlState p))
  /\ (sourceOwned p -> sourceOwned (destructor p))
  /\ (sourceOwned (self w) -> sourceOwned (self (snd (processBlock host w)))).
Proof.
  split.
  { split; [apply loadAudio_sourceOwned|].
    unfold loadAudioFileIntoTransport.
    destruct (createReaderFor (disk file)); cbn; split; try reflexivity;
      split; congruence. }
  split; [intro H; exact H|].
  split.
  { intro H. unfold setStateInformation. destruct xmlState as [x|]; [|exact H].
    destruct (hasTagName xml x "plugin-settings"); [|exact H].
    cbn [currentlyLoadedFile set_currentlyLoadedFile].
    destruct (existsAsFile _); [apply loadAudio_sourceOwned|exact H]. }
  split; [intros _; exact I|].
  intro H. unfold sourceOwned in *.
  assert (F : transportSource (self (snd (processBlock host w))) = transportSource (self w)
              /\ currentAudioFileSource (self (snd (processBlock host w)))
                 = currentAudioFileSource (self w)).
  { destruct (tryEnter host) eqn:Hlock.
    - destruct (Z.ltb_spec 0 (numTracks (self w))) as [Hn|Hn].
      + destruct (getTrack (MIDIFile (self w)) (currentTrack (self w)))
          as [theSequence|] eqn:Htrack.
        * rewrite (processBlock_track host w Hlock Hn Htrack). cbn [snd].
          rewrite self_logged.
          destruct (dispatched_frame_audio host theSequence (logged (prologue host) w))
            as (F5 & F6 & _).
          autorewrite with world in *. auto.
        * rewrite (processBlock_null_track host w Hlock Hn Htrack). cbn [snd].
          autorewrite with world. auto.
      + rewrite (processBlock_nothing_loaded host w Hlock Hn). cbn [snd].
        autorewrite with world. auto.
    - rewrite (processBlock_unlocked host w Hlock). cbn [snd].
      destruct (isPlayingSomething (self w)); autorewrite with world; auto. }
  destruct F as [F1 F2]. rewrite F1, F2. exact H.
Qed.

Lemma X13_witness :
  sourceOwned (self (snd (processBlock (stereoHost true) (startWorld playingProcessor))))
  /\ sourceOwned (setStateInformation exactReader exampleDisk (Some savedState)
                    playingProcessor).
Proof.
  pose proof (@X13_installed_source_is_owned exactReader exampleDisk tuneFile
                (Some savedState) (stereoHost true) (startWorld playingProcessor)
                playingProcessor) as (_ & _ & Hrestore & _ & Hblock).
  split; [apply Hblock|apply Hrestore]; cbn; repeat split.
Defined.

(** ** Saved state *)

Lemma file_eta (f : File) : mkFile (getFullPathName f) = f.
Proof. destruct f; reflexivity. Qed.

(** X14.  Saving and restoring.  When the reader answers for the saved
    element what [getStateInformation] wrote (the tag [plugin-settings] and
    the attribute [audiofile]), restoring the state saved from [p] into any
    processor [q] makes the loaded file of [q] that of [p], so that saving
    again gives the same element; the audio file is loaded again exactly when
    it exists as a file, otherwise the audio side of [q] is kept; timeline
    and Playback State of [q] are kept in every case. *)
Theorem X14_saved_state_round_trip
  (xml : XmlReader) (disk : Disk) (p q : AudioFilePlayerProcessor) :
  hasTagName xml (getStateInformation p) "plugin-settings" = true ->
  getStringAttribute xml (getStateInformation p) "audiofile"
  = getFullPathName (currentlyLoadedFile p) ->
  let q' := setStateInformation xml disk (Some (getStateInformation p)) q in
  currentlyLoadedFile q' = currentlyLoadedFile p
  /\ getStateInformation q' = getStateInformation p
  /\ (existsAsFile (disk (currentlyLoadedFile p)) = true ->
      q' = loadAudioFileIntoTransport disk (currentlyLoadedFile p) q)
  /\ (existsAsFile (disk (currentlyLoadedFile p)) = false ->
      transportSource q' = transportSource q
      /\ currentAudioFileSource q' = currentAudioFileSource q)
  /\ MIDIFile q' = MIDIFile q
  /\ playbackState q' = playbackState q.
Proof.
  intros Htag Hatt. cbv zeta. unfold setStateInformation.
  rewrite Htag, Hatt, file_eta.
  cbn [currentlyLoadedFile set_currentlyLoadedFile].
  assert (Hfile : forall r, currentlyLoadedFile r = currentlyLoadedFile p ->
                            getStateInformation r = getStateInformation p)
    by (intros r Hr; unfold getStateInformation; now rewrite Hr).
  destruct (existsAsFile (disk (currentlyLoadedFile p))).
  - unfold loadAudioFileIntoTransport.
    destruct (createReaderFor (disk (currentlyLoadedFile p)));
      (split; [reflexivity|]); (split; [apply Hfile; reflexivity|]);
      (split; [reflexivity|]); (split; [discriminate|]); split; reflexivity.
  - split; [reflexivity|]. split; [apply Hfile; reflexivity|].
    split; [discriminate|]. repeat split; reflexivity.
Qed.

Lemma X14_witness :
  currentlyLoadedFile
    (setStateInformation exactReader exampleDisk (Some savedState) idleProcessor)
  = tuneFile
  /\ getStateInformation
       (setStateInformation exactReader exampleDisk (Some savedState) idleProcessor)
     = savedState.
Proof.
  destruct (@X14_saved_state_round_trip exactReader exampleDisk playingProcessor
              idleProcessor eq_refl eq_refl) as (H1 & H2 & _).
  split; [exact H1|exact H2].
Defined.

(** X15.  Restoring from unusable data changes nothing: data that is no XML,
    or an element with another tag, leaves the processor as it was.  A
    well-tagged element naming a path that is no file changes the
    loaded-file field alone, to that path: the installed audio source is
    kept, so the field and the source that is playing can differ.  In no
    case does a restore touch the timeline or the Playback State. *)
Theorem X15_restore_edge_cases
  (xml : XmlReader) (disk : Disk) (x : XmlElement) (p : AudioFilePlayerProcessor) :
  setStateInformation xml disk None p = p
  /\ (hasTagName xml x "plugin-settings" = false ->
      setStateInformation xml disk (Some x) p = p)
  /\ (hasTagName xml x "plugin-settings" = true ->
      existsAsFile (disk (mkFile (getStringAttribute xml x "audiofile"))) = false ->
      setStateInformation xml disk (Some x) p
      = set_currentlyLoadedFile (mkFile (getStringAttribute xml x "audiofile")) p)
  /\ (hasTagName xml x "plugin-settings" = true ->
      currentlyLoadedFile (setStateInformation xml disk (Some x) p)
      = mkFile (getStringAttribute xml x "audiofile"))
  /\ MIDIFile (setStateInformation xml disk (Some x) p) = MIDIFile p
  /\ playbackState (setStateInformation xml disk (Some x) p) = playbackState p
  /\ lumi (setStateInformation xml disk (Some x) p) = lumi p.
Proof.
  unfold setStateInformation. cbn [currentlyLoadedFile set_currentlyLoadedFile].
  split; [reflexivity|].
  destruct (hasTagName xml x "plugin-settings").
  - split; [discriminate|].
    destruct (existsAsFile (disk (mkFile (getStringAttribute xml x "audiofile")))).
    + split; [discriminate|]. unfold loadAudioFileIntoTransport.
      destruct (createReaderFor _); repeat split; reflexivity.
    + repeat split; reflexivity.
  - split; [reflexivity|]. split; [discriminate|]. split; [discriminate|].
    repeat split; reflexivity.
Qed.

Lemma X15_witness :
  setStateInformation exactReader exampleDisk
    (Some (mkXmlElement "plugin-settings" [("audiofile", "gone.wav")%string])) playingProcessor
  = set_currentlyLoadedFile (mkFile "gone.wav") playingProcessor
  /\ source (transportSource
               (setStateInformation exactReader exampleDisk
                  (Some (mkXmlElement "plugin-settings" [("audiofile", "gone.wav")%string]))
                  playingProcessor))
     <> None.
Proof.
  destruct (@X15_restore_edge_cases exactReader exampleDisk
              (mkXmlElement "plugin-settings" [("audiofile", "gone.wav")%string])
              playingProcessor) as (_ & _ & Hgone & _).
  split; [exact (Hgone eq_refl eq_refl)|].
  rewrite (Hgone eq_refl eq_refl). discriminate.
Defined.

(** ** A load followed by a block *)

(** X16.  The first block after a load.  After [loadMIDIFile] of a file with
    at least one track, a block that acquires the lock and does not take the
    end-of-timeline branch hands the sink the due events of the first track
    of the file.  The load has cleared a pending track switch, and the load
    itself asks for no flush: the block adds a Safety Flush only if the test
    of line 142 fires on the [nextStartTime] left from before the load, so
    what was sounding before the load can stay on. *)
Theorem X16_first_block_after_load
  (disk : Disk) (file : File) (p : AudioFilePlayerProcessor)
  (host : Host) (buffer : MidiBuffer)
  (first : MidiMessageSequence) (rest : MidiFile) :
  tryEnter host = true ->
  readFromTracks (disk file) = first :: rest ->
  let theSequence := convertTrack (convertTicksToSeconds (disk file)) first in
  endOfTimeline host p theSequence = false ->
  exists w',
    processBlock host (mkWorld (loadMIDIFile disk file p) buffer []) = (Some tt, w')
    /\ lumiCalls (trace w') = map payload (due theSequence)
    /\ addedMessages (trace w')
       = (if discontinuity host p then safetyFlush else [])
    /\ trackHasChanged (self w') = false
    /\ nextStartTime (self w') = getEndTime theSequence.
Proof.
  intros Hlock Htracks theSequence Hend.
  set (w := mkWorld (loadMIDIFile disk file p) buffer []).
  assert (Hn : 0 < numTracks (self w)).
  { cbn [w self]. unfold loadMIDIFile.
    cbn [numTracks MIDIFile set_MIDIFile set_numTracks set_currentTrack
         set_trackHasChanged].
    rewrite getNumTracks_convert, Htracks. unfold getNumTracks. cbn [List.length]. lia. }
  assert (Htrack : getTrack (MIDIFile (self w)) (currentTrack (self w))
                   = Some theSequence).
  { cbn [w self]. unfold loadMIDIFile.
    cbn [numTracks MIDIFile currentTrack set_MIDIFile set_numTracks set_currentTrack
         set_trackHasChanged].
    rewrite Htracks. unfold getTrack, getNumTracks.
    cbn [convertTimestampTicksToSeconds map List.length].
    replace (0 <? Z.of_nat (S (List.length (map (convertTrack
               (convertTicksToSeconds (disk file))) rest)))) with true
      by (symmetry; apply Z.ltb_lt; lia).
    reflexivity. }
  assert (Hend' : endOfTimeline host (self w) theSequence = false) by exact Hend.
  destruct (scan_path host w Hlock Hn Htrack Hend')
    as (w' & Hrun & Htr & _ & Hchg & _).
  exists w'. split; [exact Hrun|].
  assert (Hw : w' = snd (processBlock host w)) by now rewrite Hrun.
  cbn [w trace app] in Htr.
  split.
  { rewrite Htr, !lumiCalls_app, lumiCalls_prologue, lumiCalls_forwardCalls.
    destruct (quiet_no_calls _ (beforeScan_quiet host (self w))) as [Hq _].
    rewrite Hq. cbn [app lumiCalls flat_map]. now rewrite app_nil_r. }
  split.
  { rewrite Htr, !addedMessages_app, addedMessages_prologue, addedMessages_forwardCalls.
    unfold beforeScan.
    change (trackHasChanged (self w)) with false.
    change (discontinuity host (self w)) with (discontinuity host p).
    cbn [app addedMessages flat_map]. rewrite !app_nil_r.
    destruct (discontinuity host p); [apply addedMessages_addEventCalls|reflexivity]. }
  split; [exact Hchg|].
  rewrite Hw, (processBlock_track host w Hlock Hn Htrack). cbn [snd].
  rewrite self_logged. apply dispatched_records_endTime.
Qed.

Lemma X16_witness :
  exists w',
    processBlock (stereoHost true)
      (mkWorld (loadMIDIFile exampleDisk songFile switchedProcessor) hostBuffer [])
    = (Some tt, w')
    /\ lumiCalls (trace w') = [noteOn60; noteOn64]
    /\ addedMessages (trace w') = [].
Proof.
  destruct (@X16_first_block_after_load exampleDisk songFile switchedProcessor
              (stereoHost true) hostBuffer exampleTrack [] eq_refl eq_refl eq_refl)
    as (w' & Hrun & Hcalls & Hadded & _).
  exists w'. split; [exact Hrun|]. split; [exact Hcalls|exact Hadded].
Defined.

(** ** Runs of blocks *)

Lemma hostBlock_unlocked (host : Host) (buffer : MidiBuffer) (w : World) :
  tryEnter host = false ->
  hostBlock (host, buffer) w
  = (Some tt,
     if isPlayingSomething (self w)
     then flushed (logged (prologue host) (mkWorld (self w) buffer (trace w)))
     else logged (prologue host) (mkWorld (self w) buffer (trace w))).
Proof.
  intro Hlock. unfold hostBlock, bind. cbn [fst snd].
  now rewrite (processBlock_unlocked host _ Hlock).
Qed.

(** X17.  Sustained lock contention flushes once.  Over any run of blocks
    none of which acquires the lock, the sink is never called, the processor
    ends not sounding (when there is at least one block), and the messages
    added over the whole run are one Safety Flush if the run started
    sounding and nothing otherwise. *)
Theorem X17_contention_flushes_once (blocks : list (Host * MidiBuffer)) (w : World) :
  Forall (fun block => tryEnter (fst block) = false) blocks ->
  exists w' calls,
    runBlocks blocks w = (Some tt, w')
    /\ trace w' = trace w ++ calls
    /\ lumiCalls calls = []
    /\ addedMessages calls
       = (if isPlayingSomething (self w) && negb (Nat.eqb (List.length blocks) 0)
          then safetyFlush else [])
    /\ (blocks <> [] -> isPlayingSomething (self w') = false).
Proof.
  unfold runBlocks. revert w.
  induction blocks as [|[host buffer] blocks IH]; intros w Hall.
  - exists w, []. cbn [forEach]. unfold ret. rewrite app_nil_r, andb_false_r.
    repeat split; auto. congruence.
  - inversion Hall as [|b bs Hlock Hrest]; subst. cbn [fst] in Hlock.
    cbn [forEach]. unfold bind at 1. rewrite (@hostBlock_unlocked host buffer w Hlock).
    set (v := if isPlayingSomething (self w)
              then flushed (logged (prologue host) (mkWorld (self w) buffer (trace w)))
              else logged (prologue host) (mkWorld (self w) buffer (trace w))).
    assert (Hv : isPlayingSomething (self v) = false
                 /\ trace v = trace w ++ prologue host
                      ++ (if isPlayingSomething (self w)
                          then addEventCalls safetyFlush else [])).
    { subst v. destruct (isPlayingSomething (self w)) eqn:P; autorewrite with world;
        cbn [self trace]; rewrite ?app_nil_r, <- ?app_assoc; auto. }
    destruct Hv as [Hflag Htr].
    destruct (IH v Hrest) as (w' & calls & Hrun & Htr' & Hcalls & Hadded & Hend).
    exists w', (prologue host
                ++ (if isPlayingSomething (self w) then addEventCalls safetyFlush else [])
                ++ calls).
    split; [exact Hrun|].
    split; [rewrite Htr', Htr; now rewrite <- !app_assoc|].
    split.
    { rewrite !lumiCalls_app, lumiCalls_prologue, Hcalls.
      destruct (isPlayingSomething (self w));
        [now rewrite lumiCalls_addEventCalls|reflexivity]. }
    split.
    { rewrite !addedMessages_app, addedMessages_prologue, Hadded, Hflag.
      cbn [andb app List.length Nat.eqb negb]. rewrite app_nil_r, andb_true_r.
      destruct (isPlayingSomething (self w));
        [apply addedMessages_addEventCalls|reflexivity]. }
    intros _. destruct blocks as [|b' bs'].
    + cbn [forEach] in Hrun. unfold ret in Hrun. inversion Hrun; subst. exact Hflag.
    + apply Hend. discriminate.
Qed.

Lemma X17_witness :
  exists w',
    runBlocks [(stereoHost false, []); (stereoHost false, hostBuffer);
               (stereoHost false, [])] (startWorld (self afterFirstBlock))
    = (Some tt, w')
    /\ addedMessages (trace w') = safetyFlush
    /\ isPlayingSomething (self w') = false.
Proof.
  destruct (@X17_contention_flushes_once
              [(stereoHost false, []); (stereoHost false, hostBuffer);
               (stereoHost false, [])] (startWorld (self afterFirstBlock)))
    as (w' & calls & Hrun & Htr & _ & Hadded & Hflag).
  { repeat constructor. }
  exists w'. split; [exact Hrun|]. split.
  - rewrite Htr. exact Hadded.
  - apply Hflag. discriminate.
Defined.

Lemma dispatched_self (host : Host) (theSequence : MidiMessageSequence) (w : World) :
  endOfTimeline host (self w) theSequence = false ->
  self (dispatched host theSequence w)
  = mkProcessor (MIDIFile (self w)) (numTracks (self w)) (currentTrack (self w)) false
      (if existsb (inWindow (getEndTime theSequence)) (events theSequence) then true
       else if trackHasChanged (self w) then false
       else soundingAtLine148 host (self w))
      (getEndTime theSequence) (lumi (self w)) (transportSource (self w))
      (currentAudioFileSource (self w)) (currentlyLoadedFile (self w)).
Proof.
  intro Hend. unfold endOfTimeline, soundingAtLine148 in *. unfold dispatched.
  destruct (discontinuity host (self w)); autorewrite with world;
    rewrite ?Hend; cbn [andb];
    destruct (trackHasChanged (self w)) eqn:T;
    cbn [trackHasChanged set_nextStartTime set_isPlayingSomething]; rewrite ?T;
    unfold scanned; cbn [self];
    destruct (existsb (inWindow (getEndTime theSequence)) (events theSequence));
    autorewrite with world; unfold set_isPlayingSomething, set_trackHasChanged,
      set_nextStartTime; cbn; rewrite ?T; reflexivity.
Qed.

(** X18.  The steady state of the scan.  On a track whose end time exceeds
    one sample period (the double [1.0 / getSampleRate()] of the next block)
    and which has due events, the processor state after a block on the scan
    path is a fixed point of the next block that acquires the lock: that
    block, and so every later one at that sample rate,
    adds exactly one Safety Flush, hands the sink the due events again and
    leaves the processor as it found it. *)
Theorem X18_scan_reaches_a_fixed_point
  (host next : Host) (buffer : MidiBuffer) (w : World)
  (theSequence : MidiMessageSequence) :
  tryEnter host = true ->
  tryEnter next = true ->
  exceedsSampleLength (getEndTime theSequence) (getSampleRate next) = true ->
  0 < numTracks (self w) ->
  getTrack (MIDIFile (self w)) (currentTrack (self w)) = Some theSequence ->
  endOfTimeline host (self w) theSequence = false ->
  due theSequence <> [] ->
  exists w1 w2 calls,
    processBlock host w = (Some tt, w1)
    /\ processBlock next (mkWorld (self w1) buffer []) = (Some tt, w2)
    /\ self w2 = self w1
    /\ trace w2 = calls
    /\ addedMessages calls = safetyFlush
    /\ lumiCalls calls = map payload (due theSequence).
Proof.
  intros Hlock Hnext Hlong Hn Htrack Hend Hdue.
  assert (Hex : existsb (inWindow (getEndTime theSequence)) (events theSequence) = true)
    by (apply existsb_filter_nonempty; exact Hdue).
  assert (Hself1 : self (snd (processBlock host w))
                   = mkProcessor (MIDIFile (self w)) (numTracks (self w))
                       (currentTrack (self w)) false true (getEndTime theSequence)
                       (lumi (self w)) (transportSource (self w))
                       (currentAudioFileSource (self w)) (currentlyLoadedFile (self w))).
  { rewrite (processBlock_track host w Hlock Hn Htrack). cbn [snd].
    rewrite self_logged, dispatched_self by exact Hend.
    autorewrite with world. now rewrite Hex. }
  destruct (processBlock host w) as [r w1] eqn:Hrun1.
  assert (Hr : r = Some tt).
  { pose proof (processBlock_track host w Hlock Hn Htrack) as H.
    rewrite Hrun1 in H. now inversion H. }
  subst r. cbn [snd] in Hself1.
  set (v := mkWorld (self w1) buffer []).
  assert (Hn2 : 0 < numTracks (self v)) by (cbn [v self]; now rewrite Hself1).
  assert (Ht2 : getTrack (MIDIFile (self v)) (currentTrack (self v)) = Some theSequence)
    by (cbn [v self]; now rewrite Hself1).
  assert (Hd2 : discontinuity next (self v) = true).
  { apply discontinuity_iff. cbn [v self]. rewrite Hself1. cbn [nextStartTime].
    split; [|exact Hlong].
    apply Qnot_le_lt. intro Hle. apply Qle_bool_iff in Hle.
    pose proof (@due_positive_end theSequence Hdue) as Hpos.
    unfold startTime in Hpos. congruence. }
  assert (He2 : endOfTimeline next (self v) theSequence = false)
    by (unfold endOfTimeline, soundingAtLine148; now rewrite Hd2).
  destruct (scan_path next v Hnext Hn2 Ht2 He2) as (w2 & Hrun2 & Htr2 & _ & _ & _).
  exists w1, w2, (trace w2). split; [reflexivity|]. split; [exact Hrun2|].
  split.
  { assert (Hw2 : w2 = snd (processBlock next v)) by now rewrite Hrun2.
    rewrite Hw2, (processBlock_track next v Hnext Hn2 Ht2). cbn [snd].
    rewrite self_logged, dispatched_self by exact He2.
    autorewrite with world. rewrite Hex. cbn [v self]. rewrite Hself1. reflexivity. }
  split; [reflexivity|].
  rewrite Htr2. cbn [v trace app]. unfold beforeScan. rewrite Hd2.
  replace (trackHasChanged (self v)) with false by (cbn [v self]; now rewrite Hself1).
  rewrite app_nil_r.
  rewrite !addedMessages_app, !lumiCalls_app, addedMessages_prologue, lumiCalls_prologue,
    addedMessages_addEventCalls, lumiCalls_addEventCalls, addedMessages_forwardCalls,
    lumiCalls_forwardCalls.
  cbn [app addedMessages lumiCalls flat_map]. rewrite !app_nil_r. split; reflexivity.
Qed.

Lemma X18_witness :
  exists w1 w2,
    processBlock (stereoHost true) (startWorld loadedProcessor) = (Some tt, w1)
    /\ processBlock (stereoHost true) (mkWorld (self w1) [] []) = (Some tt, w2)
    /\ self w2 = self w1
    /\ addedMessages (trace w2) = safetyFlush.
Proof.
  destruct (@X18_scan_reaches_a_fixed_point (stereoHost true) (stereoHost true) []
              (startWorld loadedProcessor) exampleTrack
              eq_refl eq_refl eq_refl eq_refl eq_refl eq_refl
              ltac:(discriminate))
    as (w1 & w2 & calls & H1 & H2 & H3 & H4 & H5 & _).
  exists w1, w2. split; [exact H1|]. split; [exact H2|]. split; [exact H3|].
  rewrite H4. exact H5.
Defined.

(** ** The discontinuity test, with the sample period the code computes *)

(** The quotient [1.0 / 44100.0] is rounded up: the sample period the code
    compares with is a double above 1/44100, and a [nextStartTime] equal to
    it does not exceed it. *)
Lemma sample_period_is_rounded :
  exists s,
    sampleLength (getSampleRate (stereoHost true)) = Finite s
    /\ (1 # 44100 < s)%Q
    /\ discontinuity (stereoHost true) (set_nextStartTime s loadedProcessor) = false
    /\ discontinuity (stereoHost true) (set_nextStartTime (1 # 44100) loadedProcessor)
       = false.
Proof.
  eexists. split; [vm_compute; reflexivity|]. repeat split.
Qed.

(** A block that holds the lock on a track with the test of line 142 true
    makes the flush of line 143 its first call after the lock attempt. *)
Lemma discontinuity_flush_first
  (host : Host) (w : World) (theSequence : MidiMessageSequence) :
  tryEnter host = true ->
  0 < numTracks (self w) ->
  getTrack (MIDIFile (self w)) (currentTrack (self w)) = Some theSequence ->
  discontinuity host (self w) = true ->
  exists w' rest,
    processBlock host w = (Some tt, w')
    /\ trace w' = trace w ++ prologue host ++ addEventCalls safetyFlush ++ rest.
Proof.
  intros Hlock Hn Htrack Hd.
  destruct (block_calls host w) as [Htr _].
  rewrite (processBlock_track host w Hlock Hn Htrack) in *. cbn [snd] in Htr.
  eexists. eexists. split; [reflexivity|].
  rewrite Htr. unfold blockCalls, dispatchCalls.
  rewrite Hlock, Htrack, Hd.
  replace (0 <? numTracks (self w)) with true by (symmetry; apply Z.ltb_lt; exact Hn).
  rewrite <- !app_assoc. reflexivity.
Qed.

(** C7, as the code has it.  With [startTime] the constant 0 and a sample
    period (the double [1.0 / getSampleRate()]) that is finite and positive,
    the test of line 142 is true exactly when [nextStartTime] is greater than
    that sample period.  A block that holds the lock on a current track
    records the end time of the track in [nextStartTime], and when the test
    is true its first call after the lock attempt is the Safety Flush of
    line 143.  So in every block holding the lock that follows a block
    holding the lock on a track whose end time exceeds the sample period, the
    test is true and the flush is emitted from it. *)
Theorem C7_discontinuity_test_fires (host : Host) (s : Q) :
  sampleLength (getSampleRate host) = Finite s ->
  (0 < s)%Q ->
  (forall p, discontinuity host p = true <-> (s < nextStartTime p)%Q)
  /\ (forall (w : World) (theSequence : MidiMessageSequence),
         tryEnter host = true ->
         0 < numTracks (self w) ->
         getTrack (MIDIFile (self w)) (currentTrack (self w)) = Some theSequence ->
         nextStartTime (self (snd (processBlock host w))) = getEndTime theSequence
         /\ ((s < nextStartTime (self w))%Q ->
             exists w' rest,
               processBlock host w = (Some tt, w')
               /\ trace w'
                  = trace w ++ prologue host ++ addEventCalls safetyFlush ++ rest))
  /\ (forall (first : Host) (w : World) (buffer : MidiBuffer)
             (theSequence : MidiMessageSequence),
         tryEnter first = true ->
         tryEnter host = true ->
         0 < numTracks (self w) ->
         getTrack (MIDIFile (self w)) (currentTrack (self w)) = Some theSequence ->
         (s < getEndTime theSequence)%Q ->
         exists w1 w2 rest,
           processBlock first w = (Some tt, w1)
           /\ processBlock host (mkWorld (self w1) buffer (trace w1)) = (Some tt, w2)
           /\ discontinuity host (self w1) = true
           /\ trace w2
              = trace w1 ++ prologue host ++ addEventCalls safetyFlush ++ rest).
Proof.
  intros Hs Hpos.
  assert (Hiff : forall p, discontinuity host p = true <-> (s < nextStartTime p)%Q)
    by (intro p; exact (discontinuity_period host p Hs Hpos)).
  split; [exact Hiff|]. split.
  - intros w theSequence Hlock Hn Htrack. split.
    + rewrite (processBlock_track host w Hlock Hn Htrack). cbn [snd].
      rewrite self_logged. apply dispatched_records_endTime.
    + intro Hlong. apply (discontinuity_flush_first host w Hlock Hn Htrack).
      apply Hiff. exact Hlong.
  - intros first w buffer theSequence Hfirst Hlock Hn Htrack Hlong.
    destruct (block_keeps_track first w) as (F1 & F2 & F3).
    assert (Hnext : nextStartTime (self (snd (processBlock first w)))
                    = getEndTime theSequence).
    { rewrite (processBlock_track first w Hfirst Hn Htrack). cbn [snd].
      rewrite self_logged. apply dispatched_records_endTime. }
    rewrite (processBlock_track first w Hfirst Hn Htrack) in *. cbn [snd] in *.
    set (w1 := logged [Exit] (dispatched first theSequence (logged (prologue first) w)))
      in *.
    set (v := mkWorld (self w1) buffer (trace w1)).
    assert (Hd : discontinuity host (self v) = true).
    { apply Hiff. cbn [v self]. rewrite Hnext. exact Hlong. }
    assert (Hn2 : 0 < numTracks (self v)) by (cbn [v self]; rewrite F2; exact Hn).
    assert (Ht2 : getTrack (MIDIFile (self v)) (currentTrack (self v)) = Some theSequence)
      by (cbn [v self]; rewrite F1, F3; exact Htrack).
    destruct (discontinuity_flush_first host v Hlock Hn2 Ht2 Hd) as (w2 & rest & Hrun & Htr).
    exists w1, w2, rest. split; [reflexivity|]. split; [exact Hrun|].
    split; [exact Hd|exact Htr].
Qed.

Lemma C7_witness :
  exists w1 w2 rest,
    processBlock (stereoHost true) (startWorld loadedProcessor) = (Some tt, w1)
    /\ processBlock (stereoHost true) (mkWorld (self w1) [] (trace w1)) = (Some tt, w2)
    /\ discontinuity (stereoHost true) (self w1) = true
    /\ trace w2
       = trace w1 ++ prologue (stereoHost true) ++ addEventCalls safetyFlush ++ rest.
Proof.
  destruct (@C7_discontinuity_test_fires (stereoHost true) _ eq_refl eq_refl)
    as (_ & _ & Htwo).
  exact (Htwo (stereoHost true) (startWorld loadedProcessor) [] exampleTrack
           eq_refl eq_refl eq_refl eq_refl eq_refl).
Defined.
